(** * generate_js.py: the documentation page bundler

    A shallow embedding of [src/generate_js.py] together with the parts of
    the Python runtime the script relies on: text-mode [open]/[read]
    (strict UTF-8 decoding followed by universal-newline translation),
    [os.path.join], insertion-ordered [dict] assignment, [print], the
    [try]/[except Exception] statement and [json.dumps(..., indent=4)].

    Python [str] values are sequences of Unicode code points; they are
    modelled as lists of [N].  File contents are lists of bytes. *)

From Stdlib Require Import NArith ZArith List Bool Lia String Ascii.
From Stdlib.Strings Require Import Byte.
Import ListNotations.
Local Open Scope N_scope.

(* ------------------------------------------------------------------ *)
(** ** Python strings *)

Definition pystr : Type := list N.

(** An ASCII literal of the script. *)
Definition py (s : string) : pystr :=
  List.map N_of_ascii (list_ascii_of_string s).

Definition LF : N := 10.
Definition CR : N := 13.
Definition QUOTE : N := 34.
Definition BACKSLASH : N := 92.
Definition SPACE : N := 32.

Fixpoint pystr_eqb (a b : pystr) : bool :=
  match a, b with
  | [], [] => true
  | x :: a', y :: b' => (x =? y) && pystr_eqb a' b'
  | _, _ => false
  end.

(** A code point that UTF-8 can carry: below 0x110000 and not a
    surrogate. *)
Definition scalar (c : N) : Prop :=
  c < 0x110000 /\ ~ (0xD800 <= c <= 0xDFFF).

(* ------------------------------------------------------------------ *)
(** ** Exceptions *)

(** The exception classes that matter to the script.  The first six derive
    from [Exception]; [KeyboardInterrupt] and [SystemExit] derive from
    [BaseException] only. *)
Inductive exn_class : Type :=
| FileNotFoundError
| PermissionError
| IsADirectoryError
| OSError
| UnicodeDecodeError
| MemoryError
| KeyboardInterrupt
| SystemExit.

Definition issubclass_Exception (c : exn_class) : bool :=
  match c with
  | KeyboardInterrupt | SystemExit => false
  | _ => true
  end.

(** An exception instance: its class and the text [str(e)] renders. *)
Record exn : Type := mkExn { exn_cls : exn_class; exn_str : pystr }.

(* ------------------------------------------------------------------ *)
(** ** The environment: files and the codec's fault text *)

(** [fs_read path] is what opening [path] in mode ['r'] and reading the
    underlying binary stream to its end gives: an exception, or the bytes
    of the file.  [codec_fault bs] is the text of the [UnicodeDecodeError]
    the UTF-8 codec raises on the ill-formed byte string [bs]. *)
Record env : Type := mkEnv {
  fs_read : pystr -> exn + list byte;
  codec_fault : list byte -> pystr
}.

(* ------------------------------------------------------------------ *)
(** ** Strict UTF-8 decoding ([encoding='utf-8'], errors='strict') *)

Definition is_cont (b : N) : bool := (0x80 <=? b) && (b <? 0xC0).

(** Well-formed sequences only: no overlong forms, no surrogates, nothing
    above U+10FFFF.  The code point arithmetic is the decoder's own:
    shifted sum minus the accumulated marker bits. *)
Fixpoint utf8_decode (bs : list N) : option pystr :=
  match bs with
  | [] => Some []
  | ch :: r0 =>
    if ch <? 0x80 then option_map (cons ch) (utf8_decode r0)
    else if ch <? 0xC2 then None
    else if ch <? 0xE0 then
      match r0 with
      | ch2 :: r1 =>
        if is_cont ch2
        then option_map
               (cons (N.shiftl ch 6 + ch2 - (N.shiftl 0xC0 6 + 0x80)))
               (utf8_decode r1)
        else None
      | _ => None
      end
    else if ch <? 0xF0 then
      match r0 with
      | ch2 :: ch3 :: r2 =>
        if is_cont ch2 && is_cont ch3
           && negb ((ch =? 0xE0) && (ch2 <? 0xA0))
           && negb ((ch =? 0xED) && (0xA0 <=? ch2))
        then option_map
               (cons (N.shiftl ch 12 + N.shiftl ch2 6 + ch3
                      - (N.shiftl 0xE0 12 + N.shiftl 0x80 6 + 0x80)))
               (utf8_decode r2)
        else None
      | _ => None
      end
    else if ch <? 0xF5 then
      match r0 with
      | ch2 :: ch3 :: ch4 :: r3 =>
        if is_cont ch2 && is_cont ch3 && is_cont ch4
           && negb ((ch =? 0xF0) && (ch2 <? 0x90))
           && negb ((ch =? 0xF4) && (0x90 <=? ch2))
        then option_map
               (cons (N.shiftl ch 18 + N.shiftl ch2 12 + N.shiftl ch3 6 + ch4
                      - (N.shiftl 0xF0 18 + N.shiftl 0x80 12
                         + N.shiftl 0x80 6 + 0x80)))
               (utf8_decode r3)
        else None
      | _ => None
      end
    else None
  end.

Definition decode_bytes (bs : list byte) : option pystr :=
  utf8_decode (List.map Byte.to_N bs).

(** Universal newlines ([newline=None] on input): every ["\r\n"] and every
    remaining ["\r"] is returned to the caller as ["\n"]. *)
Fixpoint universal_newlines (s : pystr) : pystr :=
  match s with
  | [] => []
  | c :: r =>
    if c =? CR then
      match r with
      | d :: r' => if d =? LF then LF :: universal_newlines r'
                   else LF :: universal_newlines r
      | [] => [LF]
      end
    else c :: universal_newlines r
  end.

(** [with open(filepath, 'r', encoding='utf-8') as f: content = f.read()] *)
Definition open_read (E : env) (filepath : pystr) : exn + pystr :=
  match fs_read E filepath with
  | inl e => inl e
  | inr bs =>
    match decode_bytes bs with
    | Some text => inr (universal_newlines text)
    | None => inl (mkExn UnicodeDecodeError (codec_fault E bs))
    end
  end.

(* ------------------------------------------------------------------ *)
(** ** [os.path.join] on two components *)

Definition SLASH : N := 47.

Definition endswith_slash (a : pystr) : bool :=
  match rev a with
  | c :: _ => c =? SLASH
  | [] => false
  end.

Definition startswith_slash (b : pystr) : bool :=
  match b with
  | c :: _ => c =? SLASH
  | [] => false
  end.

(** [posixpath.join(a, b)]: an absolute [b] replaces the path; otherwise
    [b] is appended, after a separator unless the path is empty or already
    ends with one. *)
Definition os_path_join (a b : pystr) : pystr :=
  if startswith_slash b then b
  else if pystr_eqb a [] || endswith_slash a then a ++ b
  else a ++ [SLASH] ++ b.

(* ------------------------------------------------------------------ *)
(** ** Insertion-ordered dictionaries *)

Definition dict : Type := list (pystr * pystr).

Definition keys (d : dict) : list pystr := List.map fst d.

Fixpoint dict_get (d : dict) (k : pystr) : option pystr :=
  match d with
  | [] => None
  | (k', v) :: r => if pystr_eqb k' k then Some v else dict_get r k
  end.

(** [d[k] = v]: an existing key keeps its position, a new key goes last. *)
Fixpoint dict_set (d : dict) (k v : pystr) : dict :=
  match d with
  | [] => [(k, v)]
  | (k', v') :: r =>
    if pystr_eqb k' k then (k', v) :: r else (k', v') :: dict_set r k v
  end.

(* ------------------------------------------------------------------ *)
(** ** Output streams and the script's effects *)

Record world : Type := mkWorld { stdout : pystr; stderr : pystr }.

Definition world0 : world := mkWorld [] [].

(** A statement either completes with a value or raises; either way it
    leaves a world behind. *)
Definition M (A : Type) : Type := world -> (exn + A) * world.

Definition ret {A} (a : A) : M A := fun w => (inr a, w).

Definition raise {A} (e : exn) : M A := fun w => (inl e, w).

Definition bind {A B} (m : M A) (k : A -> M B) : M B :=
  fun w =>
    match m w with
    | (inl e, w') => (inl e, w')
    | (inr a, w') => k a w'
    end.

Notation "x <- m ;; k" := (bind m (fun x => k))
  (at level 61, m at next level, right associativity).
Notation "m ;;; k" := (bind m (fun _ => k))
  (at level 61, right associativity).

(** [print(s)] with the default [file=sys.stdout] and [end='\n']. *)
Definition print (s : pystr) : M unit :=
  fun w => (inr tt, mkWorld (stdout w ++ s ++ [LF]) (stderr w)).

(** [try: body  except Exception as e: handler e].  Instances of classes
    outside [Exception] pass through uncaught. *)
Definition try_except_Exception {A} (body : M A) (handler : exn -> M A)
  : M A :=
  fun w =>
    match body w with
    | (inl e, w') =>
      if issubclass_Exception (exn_cls e) then handler e w'
      else (inl e, w')
    | r => r
    end.

(** Lifting the outcome of a call that touches no stream. *)
Definition call {A} (r : exn + A) : M A := fun w => (r, w).

(** [for x in xs: acc = body x acc] *)
Fixpoint for_each {X S} (xs : list X) (body : X -> S -> M S) (acc : S)
  : M S :=
  match xs with
  | [] => ret acc
  | x :: xs' => acc' <- body x acc ;; for_each xs' body acc'
  end.

(* ------------------------------------------------------------------ *)
(** ** The script's constants *)

Definition pages_map : dict :=
  [ (py "home", py "README.md");
    (py "installation", py "installation.md");
    (py "getting-started", py "getting-started.md");
    (py "configuration", py "configuration.md");
    (py "factories", py "factories.md");
    (py "expectations", py "expectations.md");
    (py "authentication", py "authentication.md");
    (py "database-isolation", py "database-isolation.md");
    (py "browser-testing", py "browser-testing.md");
    (py "rest-api-testing", py "rest-api-testing.md");
    (py "ajax-testing", py "ajax-testing.md");
    (py "architecture-testing", py "architecture-testing.md");
    (py "mocking", py "mocking.md");
    (py "fixtures", py "fixtures.md");
    (py "snapshots", py "snapshots.md");
    (py "visual-regression", py "visual-regression.md");
    (py "accessibility-testing", py "accessibility-testing.md");
    (py "woocommerce", py "woocommerce.md");
    (py "gutenberg", py "gutenberg.md");
    (py "ci-cd", py "ci-cd.md");
    (py "migration", py "migration.md") ].

Definition base_path : pystr := py "docs/guide/".

(** [f"Error reading {filepath}: {e}"] *)
Definition error_line (filepath : pystr) (e : exn) : pystr :=
  py "Error reading " ++ filepath ++ py ": " ++ exn_str e.

(** [f"# Error\nCould not load {filename}"] *)
Definition fallback (filename : pystr) : pystr :=
  py "# Error" ++ [LF] ++ py "Could not load " ++ filename.

(* ------------------------------------------------------------------ *)
(** ** The bundling loop *)

(** One iteration of [for key, filename in pages_map.items()]. *)
Definition loop_body (E : env) (item : pystr * pystr)
  (embedded_pages : dict) : M dict :=
  let '(key, filename) := item in
  let filepath := os_path_join base_path filename in
  try_except_Exception
    (content <- call (open_read E filepath) ;;
     ret (dict_set embedded_pages key content))
    (fun e =>
       print (error_line filepath e) ;;;
       ret (dict_set embedded_pages key (fallback filename))).

Definition build (E : env) : M dict :=
  for_each pages_map (loop_body E) [].

(* ------------------------------------------------------------------ *)
(** ** [json.dumps]: string escaping with [ensure_ascii=True] *)

Definition hexdigit (d : N) : N := if d <? 10 then 48 + d else 87 + d.

Fixpoint hex_digits (fuel : nat) (n : N) : pystr :=
  match fuel with
  | O => []
  | S fuel' =>
    if n <? 16 then [hexdigit n]
    else hex_digits fuel' (n / 16) ++ [hexdigit (n mod 16)]
  end.

(** ['{0:x}'.format(n)]; a number has at most [log2 n + 1] digits. *)
Definition format_x (n : N) : pystr :=
  hex_digits (S (N.to_nat (N.log2 n))) n.

(** ['{0:04x}'.format(n)]: lower-case hexadecimal, zero-padded to four. *)
Definition format_04x (n : N) : pystr :=
  let ds := format_x n in
  repeat 48 (4 - List.length ds) ++ ds.

(** The regular expression [ESCAPE_ASCII]: a backslash, a double quote,
    or anything outside the range from space to tilde. *)
Definition ESCAPE_ASCII (c : N) : bool :=
  (c =? BACKSLASH) || (c =? QUOTE) || negb ((SPACE <=? c) && (c <=? 126)).

(** [ESCAPE_DCT]: the seven short escapes, and [\u00XX] set by default for
    the other code points below 0x20. *)
Definition ESCAPE_DCT (c : N) : option pystr :=
  if c =? BACKSLASH then Some [BACKSLASH; BACKSLASH]
  else if c =? QUOTE then Some [BACKSLASH; QUOTE]
  else if c =? 8 then Some [BACKSLASH; 98]
  else if c =? 12 then Some [BACKSLASH; 102]
  else if c =? LF then Some [BACKSLASH; 110]
  else if c =? CR then Some [BACKSLASH; 114]
  else if c =? 9 then Some [BACKSLASH; 116]
  else if c <? 0x20 then Some ([BACKSLASH; 117] ++ format_04x c)
  else None.

(** The [replace] callback of [py_encode_basestring_ascii]. *)
Definition replace (c : N) : pystr :=
  match ESCAPE_DCT c with
  | Some r => r
  | None =>
    if c <? 0x10000 then [BACKSLASH; 117] ++ format_04x c
    else
      let n := c - 0x10000 in
      let s1 := N.lor 0xd800 (N.land (N.shiftr n 10) 0x3ff) in
      let s2 := N.lor 0xdc00 (N.land n 0x3ff) in
      [BACKSLASH; 117] ++ format_04x s1 ++ [BACKSLASH; 117] ++ format_04x s2
  end.

Definition escape_char (c : N) : pystr :=
  if ESCAPE_ASCII c then replace c else [c].

(** [ESCAPE_ASCII.sub(replace, s)] between two double quotes. *)
Definition encode_basestring_ascii (s : pystr) : pystr :=
  [QUOTE] ++ flat_map escape_char s ++ [QUOTE].

(* ------------------------------------------------------------------ *)
(** ** [json.dumps]: the dictionary encoder *)

(** [s * n] on strings. *)
Definition str_mul (s : pystr) (n : nat) : pystr := List.concat (repeat s n).

(** The body of the [for key, value in items] loop of [_iterencode_dict],
    for string keys and string values; the result lists the chunks it
    yields. *)
Fixpoint iterencode_items (item_separator _key_separator : pystr)
  (first : bool) (items : dict) : list pystr :=
  match items with
  | [] => []
  | (key, value) :: rest =>
    (if first then [] else [item_separator])
    ++ [encode_basestring_ascii key; _key_separator;
        encode_basestring_ascii value]
    ++ iterencode_items item_separator _key_separator false rest
  end.

Definition _iterencode_dict (_indent : option pystr)
  (_item_separator _key_separator : pystr)
  (dct : dict) (_current_indent_level : nat) : list pystr :=
  match dct with
  | [] => [py "{}"]
  | _ =>
    match _indent with
    | Some ind =>
      let level := S _current_indent_level in
      let newline_indent := [LF] ++ str_mul ind level in
      let item_separator := _item_separator ++ newline_indent in
      [py "{"] ++ [newline_indent]
      ++ iterencode_items item_separator _key_separator true dct
      ++ [[LF] ++ str_mul ind (level - 1)]
      ++ [py "}"]
    | None =>
      [py "{"]
      ++ iterencode_items _item_separator _key_separator true dct
      ++ [py "}"]
    end
  end.

(** [json.dumps(obj, indent=n)]: an integer indent is that many spaces,
    the item separator is [","] and the key separator [": "]; the chunks
    are joined. *)
Definition json_dumps (obj : dict) (indent : nat) : pystr :=
  List.concat (_iterencode_dict (Some (repeat SPACE indent)) (py ",") (py ": ")
            obj 0).

(* ------------------------------------------------------------------ *)
(** ** The script *)

Definition js_content (embedded_pages : dict) : pystr :=
  py "        const embeddedPages = " ++ json_dumps embedded_pages 4
  ++ py ";" ++ [LF].

Definition main (E : env) : M unit :=
  embedded_pages <- build E ;;
  print (js_content embedded_pages).

(** How the interpreter leaves: by reaching the end of the script, or
    with an exception nobody caught. *)
Inductive termination : Type :=
| Completed
| Uncaught (e : exn).

(** Reaching the end of the script is exit status 0.  An uncaught
    exception is reported with a non-zero status. *)
Definition exit_status (t : termination) : option N :=
  match t with
  | Completed => Some 0
  | Uncaught _ => None
  end.

Definition run (E : env) : termination * world :=
  match main E world0 with
  | (inr _, w) => (Completed, w)
  | (inl e, w) => (Uncaught e, w)
  end.

(* ------------------------------------------------------------------ *)
(** ** Reading the literal back: [json.loads] on objects of strings

    The decoder of the [json] module ([scanstring], [JSONObject] and the
    trailing-data test of [decode]) on the fragment the encoder above can
    emit: one object whose keys and values are strings.  A value of any
    other JSON type makes the parse fail, since the result holds strings
    only. *)

Definition hexval (c : N) : option N :=
  if (48 <=? c) && (c <=? 57) then Some (c - 48)
  else if (97 <=? c) && (c <=? 102) then Some (c - 87)
  else if (65 <=? c) && (c <=? 70) then Some (c - 55)
  else None.

(** [int(s[pos:pos+4], 16)] on four hexadecimal digits. *)
Definition decode_uXXXX (a b c d : N) : option N :=
  match hexval a, hexval b, hexval c, hexval d with
  | Some x3, Some x2, Some x1, Some x0 =>
    Some (((x3 * 16 + x2) * 16 + x1) * 16 + x0)
  | _, _, _, _ => None
  end.

(** [BACKSLASH]: the characters a backslash may introduce. *)
Definition BACKSLASH_DCT (e : N) : option N :=
  if e =? QUOTE then Some QUOTE
  else if e =? BACKSLASH then Some BACKSLASH
  else if e =? SLASH then Some SLASH
  else if e =? 98 then Some 8
  else if e =? 102 then Some 12
  else if e =? 110 then Some LF
  else if e =? 114 then Some CR
  else if e =? 116 then Some 9
  else None.

(** [scanstring] in strict mode, started after the opening quote: the
    string read and the text after its closing quote.  A high surrogate
    escape directly followed by a low surrogate escape is one code
    point. *)
Fixpoint scanstring (s : pystr) (acc : pystr) : option (pystr * pystr) :=
  match s with
  | [] => None
  | c :: s1 =>
    if c =? QUOTE then Some (rev acc, s1)
    else if c =? BACKSLASH then
      match s1 with
      | [] => None
      | e :: s2 =>
        if e =? 117 then
          match s2 with
          | h3 :: h2 :: h1 :: h0 :: s3 =>
            match decode_uXXXX h3 h2 h1 h0 with
            | None => None
            | Some uni =>
              if (0xd800 <=? uni) && (uni <=? 0xdbff) then
                match s3 with
                | b :: u :: s4 =>
                  if (b =? BACKSLASH) && (u =? 117) then
                    match s4 with
                    | l3 :: l2 :: l1 :: l0 :: s5 =>
                      match decode_uXXXX l3 l2 l1 l0 with
                      | None => None
                      | Some uni2 =>
                        if (0xdc00 <=? uni2) && (uni2 <=? 0xdfff)
                        then scanstring s5
                               (0x10000
                                + N.lor (N.shiftl (uni - 0xd800) 10)
                                        (uni2 - 0xdc00) :: acc)
                        else scanstring s3 (uni :: acc)
                      end
                    | _ => None
                    end
                  else scanstring s3 (uni :: acc)
                | _ => scanstring s3 (uni :: acc)
                end
              else scanstring s3 (uni :: acc)
            end
          | _ => None
          end
        else
          match BACKSLASH_DCT e with
          | Some ch => scanstring s2 (ch :: acc)
          | None => None
          end
      end
    else if c <? 0x20 then None
    else scanstring s1 (c :: acc)
  end.

Definition is_ws (c : N) : bool :=
  (c =? SPACE) || (c =? 9) || (c =? LF) || (c =? CR).

Fixpoint skip_ws (s : pystr) : pystr :=
  match s with
  | c :: r => if is_ws c then skip_ws r else s
  | [] => []
  end.

Definition COLON : N := 58.
Definition COMMA : N := 44.
Definition LBRACE : N := 123.
Definition RBRACE : N := 125.

(** The [while True] loop of [JSONObject], entered after the opening quote
    of a key; [fuel] bounds the number of members. *)
Fixpoint parse_members (fuel : nat) (s : pystr) (pairs : dict)
  : option (dict * pystr) :=
  match fuel with
  | O => None
  | S fuel' =>
    match scanstring s [] with
    | None => None
    | Some (key, s1) =>
      match skip_ws s1 with
      | c :: s2 =>
        if c =? COLON then
          match skip_ws s2 with
          | q :: s3 =>
            if q =? QUOTE then
              match scanstring s3 [] with
              | None => None
              | Some (value, s4) =>
                let pairs' := pairs ++ [(key, value)] in
                match skip_ws s4 with
                | n :: s5 =>
                  if n =? RBRACE then Some (pairs', s5)
                  else if n =? COMMA then
                    match skip_ws s5 with
                    | q' :: s6 =>
                      if q' =? QUOTE then parse_members fuel' s6 pairs'
                      else None
                    | [] => None
                    end
                  else None
                | [] => None
                end
              end
            else None
          | [] => None
          end
        else None
      | [] => None
      end
    end
  end.

(** [dict(pairs)] *)
Definition dict_of_pairs (pairs : list (pystr * pystr)) : dict :=
  fold_left (fun d kv => dict_set d (fst kv) (snd kv)) pairs [].

(** [json.loads(s)]: leading white space, one object, nothing but white
    space after it.  Every member takes at least one character, so the
    length of the text is fuel enough. *)
Definition json_loads (s : pystr) : option dict :=
  match skip_ws s with
  | c :: s1 =>
    if c =? LBRACE then
      match skip_ws s1 with
      | n :: s2 =>
        let parsed :=
          if n =? RBRACE then Some ([], s2)
          else if n =? QUOTE then parse_members (List.length s) s2 []
          else None in
        match parsed with
        | Some (pairs, rest) =>
          match skip_ws rest with
          | [] => Some (dict_of_pairs pairs)
          | _ :: _ => None
          end
        | None => None
        end
      | [] => None
      end
    else None
  | [] => None
  end.

(* ------------------------------------------------------------------ *)
(** ** Vocabulary of the specification *)

Definition path_of (filename : pystr) : pystr :=
  os_path_join base_path filename.

(** Every exception a read of a registry file raises is an instance of
    [Exception]: the read fails, it is not interrupted. *)
Definition reads_fail_with_Exception (E : env) : Prop :=
  forall key filename e,
    In (key, filename) pages_map ->
    open_read E (path_of filename) = inl e ->
    issubclass_Exception (exn_cls e) = true.

(** The content map entry the specification asks for. *)
Definition entry_of (E : env) (item : pystr * pystr) : pystr * pystr :=
  (fst item,
   match open_read E (path_of (snd item)) with
   | inr text => text
   | inl _ => fallback (snd item)
   end).

(** The diagnostic line, with its line end, of an entry whose read
    failed; nothing for an entry that was read. *)
Definition diagnostic (E : env) (item : pystr * pystr) : pystr :=
  match open_read E (path_of (snd item)) with
  | inl e =>
    py "Error reading " ++ path_of (snd item) ++ py ": " ++ exn_str e
    ++ [LF]
  | inr _ => []
  end.

(** [sep.join(parts)] *)
Fixpoint join (sep : pystr) (parts : list pystr) : pystr :=
  match parts with
  | [] => []
  | [p] => p
  | p :: rest => p ++ sep ++ join sep rest
  end.

(** The structured literal as the format section draws it: an opening
    brace, one member per line indented by four spaces, lines separated by
    a comma, and the closing brace on a line of its own. *)
Definition member_line (kv : pystr * pystr) : pystr :=
  repeat SPACE 4 ++ encode_basestring_ascii (fst kv) ++ py ": "
  ++ encode_basestring_ascii (snd kv).

Definition indented_literal (d : dict) : pystr :=
  py "{" ++ [LF] ++ join (py "," ++ [LF]) (List.map member_line d)
  ++ [LF] ++ py "}".

(** Strings and maps without surrogate code points. *)
Definition wellformed (s : pystr) : Prop := Forall scalar s.

Definition content_map (d : dict) : Prop :=
  NoDup (keys d) /\
  Forall (fun kv => wellformed (fst kv) /\ wellformed (snd kv)) d.

Definition ascii_only (s : pystr) : Prop := Forall (fun c => c < 128) s.

(* ------------------------------------------------------------------ *)
(** ** Sample environments *)

Definition errno2 (path : pystr) : exn :=
  mkExn FileNotFoundError
        (py "[Errno 2] No such file or directory: '" ++ path ++ py "'").

(** No file at all under the base path. *)
Definition env_empty : env :=
  mkEnv (fun path => inl (errno2 path)) (fun _ => py "invalid start byte").

(** One file, [README.md], with the given bytes; all others missing. *)
Definition env_readme (bs : list byte) : env :=
  mkEnv (fun path =>
           if pystr_eqb path (py "docs/guide/README.md") then inr bs
           else inl (errno2 path))
        (fun _ => py "invalid start byte").

(** Reading [README.md] is interrupted from the keyboard. *)
Definition env_interrupted : env :=
  mkEnv (fun path =>
           if pystr_eqb path (py "docs/guide/README.md")
           then inl (mkExn KeyboardInterrupt [])
           else inl (errno2 path))
        (fun _ => py "invalid start byte").

(** Every file exists and is empty. *)
Definition env_blank : env :=
  mkEnv (fun _ => inr []) (fun _ => py "invalid start byte").


(** ["a\r\nb"], a two-line file with a DOS line end. *)
Definition crlf_file : list byte := [x61; x0d; x0a; x62].

(** A double quote, a backslash, a newline, e-acute and U+1F600. *)
Definition tricky_file : list byte :=
  [x22; x5c; x0a; xc3; xa9; xf0; x9f; x98; x80].

(* ------------------------------------------------------------------ *)
(** ** Auxiliary vocabulary of the proofs *)

(** The four hexadecimal digits of a number below 0x10000. *)
Definition hex4 (n : N) : pystr :=
  [hexdigit (n / 4096); hexdigit (n / 256 mod 16);
   hexdigit (n / 16 mod 16); hexdigit (n mod 16)].

(** What is between the quotes of an encoded string. *)
Definition escaped (s : pystr) : pystr := flat_map escape_char s.

(** The text of the literal after the opening quote of a member's key, up
    to the closing brace. *)
Fixpoint members_text (k v : pystr) (rest : dict) : pystr :=
  escaped k ++ QUOTE :: COLON :: SPACE :: QUOTE :: escaped v
  ++ QUOTE ::
  match rest with
  | [] => [LF; RBRACE]
  | (k', v') :: rest' =>
    COMMA :: LF :: SPACE :: SPACE :: SPACE :: SPACE :: QUOTE
    :: members_text k' v' rest'
  end.

(** The decidable form of [scalar], for concrete strings. *)
Definition scalarb (c : N) : bool :=
  (c <? 0x110000) && negb ((0xD800 <=? c) && (c <=? 0xDFFF)).

(** Printable ASCII: from space to tilde. *)
Definition printable (c : N) : Prop := 32 <= c <= 126.

(** A byte that occurs in no well-formed UTF-8 sequence. *)
Definition never_in_utf8 (b : N) : Prop := b = 0xC0 \/ b = 0xC1 \/ 0xF5 <= b.

(** [README.md] is missing and the read of [installation.md] is
    interrupted from the keyboard. *)
Definition env_interrupted_second : env :=
  mkEnv (fun path =>
           if pystr_eqb path (py "docs/guide/installation.md")
           then inl (mkExn KeyboardInterrupt [])
           else inl (errno2 path))
        (fun _ => py "invalid start byte").

(** ["Hi\n"] in ASCII, and the same with a stray byte 0xFF at its end. *)
Definition ascii_file : list byte := [x48; x69; x0a].
Definition broken_file : list byte := [x48; x69; x0a; xff].

(* ================================================================== *)
(** * Properties *)

(** ** Strings and dictionaries *)

Lemma pystr_eqb_eq (a b : pystr) : pystr_eqb a b = true <-> a = b.
Proof.
  revert b; induction a as [|x a IH]; intros [|y b]; simpl;
    try (split; [discriminate | congruence]); [tauto|].
  rewrite andb_true_iff, N.eqb_eq, IH.
  split; [intros [-> ->]; reflexivity | intros [= -> ->]; auto].
Qed.

Lemma pystr_eqb_refl (a : pystr) : pystr_eqb a a = true.
Proof. apply pystr_eqb_eq; reflexivity. Qed.

Lemma pystr_eqb_neq (a b : pystr) : a <> b -> pystr_eqb a b = false.
Proof.
  intros H; destruct (pystr_eqb a b) eqn:Heq; [|reflexivity].
  apply pystr_eqb_eq in Heq; contradiction.
Qed.

Lemma dict_set_fresh (d : dict) (k v : pystr) :
  ~ In k (keys d) -> dict_set d k v = d ++ [(k, v)].
Proof.
  induction d as [|[k' v'] d IH]; simpl; intros Hk; [reflexivity|].
  rewrite pystr_eqb_neq by (intros ->; apply Hk; now left).
  rewrite IH by (intros Hin; apply Hk; now right); reflexivity.
Qed.

Lemma dict_get_set_same (d : dict) (k v : pystr) :
  dict_get (dict_set d k v) k = Some v.
Proof.
  induction d as [|[k' v'] d IH]; simpl.
  - now rewrite pystr_eqb_refl.
  - destruct (pystr_eqb k' k) eqn:Hk; simpl; rewrite Hk; auto.
Qed.

Lemma dict_get_In (d : dict) (k v : pystr) :
  NoDup (keys d) -> In (k, v) d -> dict_get d k = Some v.
Proof.
  induction d as [|[k' v'] d IH]; simpl; [tauto|].
  intros Hnd [Heq | Hin].
  - injection Heq as -> ->. now rewrite pystr_eqb_refl.
  - inversion Hnd as [|? ? Hk' Hnd']; subst.
    rewrite pystr_eqb_neq; [auto|].
    intros ->; apply Hk'. change k with (fst (k, v)).
    now apply in_map.
Qed.

(** Assigning a run of fresh, pairwise distinct keys appends them in
    order. *)
Lemma fold_dict_set_fresh (items d : dict) :
  NoDup (keys d ++ keys items) ->
  fold_left (fun acc kv => dict_set acc (fst kv) (snd kv)) items d
  = d ++ items.
Proof.
  revert d; induction items as [|[k v] items IH]; intros d Hnd; simpl.
  - now rewrite app_nil_r.
  - rewrite dict_set_fresh.
    + rewrite IH.
      * now rewrite <- app_assoc.
      * unfold keys in *. rewrite map_app, <- app_assoc. exact Hnd.
    + apply NoDup_remove_2 in Hnd. intros Hin; apply Hnd.
      apply in_or_app; now left.
Qed.

Lemma pages_map_keys_NoDup : NoDup (keys pages_map).
Proof.
  assert (H : nodup (list_eq_dec N.eq_dec) (keys pages_map)
              = keys pages_map) by (vm_compute; reflexivity).
  rewrite <- H. apply NoDup_nodup.
Qed.

(** ** One iteration of the loop *)

Lemma loop_body_read E key filename text d w :
  open_read E (path_of filename) = inr text ->
  loop_body E (key, filename) d w = (inr (dict_set d key text), w).
Proof.
  intros H. unfold loop_body, try_except_Exception, bind, call, ret.
  fold (path_of filename). now rewrite H.
Qed.

Lemma loop_body_caught E key filename e d w :
  open_read E (path_of filename) = inl e ->
  issubclass_Exception (exn_cls e) = true ->
  loop_body E (key, filename) d w
  = (inr (dict_set d key (fallback filename)),
     mkWorld (stdout w ++ error_line (path_of filename) e ++ [LF])
             (stderr w)).
Proof.
  intros H Hc.
  unfold loop_body, try_except_Exception, bind, call, ret, print.
  fold (path_of filename). rewrite H. now rewrite Hc.
Qed.

Lemma loop_body_escapes E key filename e d w :
  open_read E (path_of filename) = inl e ->
  issubclass_Exception (exn_cls e) = false ->
  loop_body E (key, filename) d w = (inl e, w).
Proof.
  intros H Hc. unfold loop_body, try_except_Exception, bind, call, ret.
  fold (path_of filename). rewrite H. now rewrite Hc.
Qed.

Lemma diagnostic_error_line E key filename e :
  open_read E (path_of filename) = inl e ->
  diagnostic E (key, filename) = error_line (path_of filename) e ++ [LF].
Proof.
  intros H. unfold diagnostic, error_line. simpl snd. rewrite H.
  now rewrite <- !app_assoc.
Qed.

Lemma diagnostic_read E key filename text :
  open_read E (path_of filename) = inr text ->
  diagnostic E (key, filename) = [].
Proof. intros H. unfold diagnostic. cbn [snd]. now rewrite H. Qed.

Lemma entry_of_read E key filename text :
  open_read E (path_of filename) = inr text ->
  entry_of E (key, filename) = (key, text).
Proof. intros H. unfold entry_of. cbn [fst snd]. now rewrite H. Qed.

Lemma entry_of_failed E key filename e :
  open_read E (path_of filename) = inl e ->
  entry_of E (key, filename) = (key, fallback filename).
Proof. intros H. unfold entry_of. cbn [fst snd]. now rewrite H. Qed.

(** ** The whole loop *)

Lemma for_each_cons {X S} (x : X) (xs : list X) (body : X -> S -> M S)
  (acc : S) (w : world) :
  for_each (x :: xs) body acc w
  = match body x acc w with
    | (inl e, w') => (inl e, w')
    | (inr acc', w') => for_each xs body acc' w'
    end.
Proof. reflexivity. Qed.

Lemma for_each_loop E (items : dict) :
  (forall key filename e,
      In (key, filename) items ->
      open_read E (path_of filename) = inl e ->
      issubclass_Exception (exn_cls e) = true) ->
  forall d w,
    for_each items (loop_body E) d w
    = (inr (fold_left (fun acc kv => dict_set acc (fst kv) (snd kv))
                      (List.map (entry_of E) items) d),
       mkWorld (stdout w ++ flat_map (diagnostic E) items) (stderr w)).
Proof.
  induction items as [|[key filename] items IH]; intros Hexc d w.
  - simpl. unfold ret. rewrite app_nil_r. now destruct w.
  - assert (Hrest : forall k f e, In (k, f) items ->
               open_read E (path_of f) = inl e ->
               issubclass_Exception (exn_cls e) = true)
      by (intros k f e Hin; apply (Hexc k f e); now right).
    rewrite for_each_cons.
    destruct (open_read E (path_of filename)) as [e|text] eqn:Hr.
    + rewrite (loop_body_caught _ _ _ e) by
          first [ exact Hr
                | apply (Hexc key filename e); [now left | exact Hr] ].
      rewrite (IH Hrest). cbn [List.map fold_left flat_map stdout stderr].
      rewrite (entry_of_failed _ _ _ e Hr). cbn [fst snd].
      rewrite (diagnostic_error_line _ _ _ e Hr).
      now rewrite <- !app_assoc.
    + rewrite (loop_body_read _ _ _ text) by exact Hr.
      rewrite (IH Hrest). cbn [List.map fold_left flat_map stdout stderr].
      rewrite (entry_of_read _ _ _ text Hr). cbn [fst snd].
      rewrite (diagnostic_read _ _ _ text Hr). reflexivity.
Qed.

Lemma keys_entry_of E (items : dict) :
  keys (List.map (entry_of E) items) = keys items.
Proof.
  unfold keys. rewrite map_map. apply map_ext. reflexivity.
Qed.

Lemma build_spec E :
  reads_fail_with_Exception E ->
  build E world0
  = (inr (List.map (entry_of E) pages_map),
     mkWorld (flat_map (diagnostic E) pages_map) []).
Proof.
  intros HE. unfold build. rewrite (for_each_loop E pages_map HE).
  rewrite fold_dict_set_fresh.
  - reflexivity.
  - change (keys [] ++ ?l) with l. rewrite keys_entry_of.
    apply pages_map_keys_NoDup.
Qed.

Lemma run_spec E :
  reads_fail_with_Exception E ->
  run E
  = (Completed,
     mkWorld (flat_map (diagnostic E) pages_map
              ++ js_content (List.map (entry_of E) pages_map) ++ [LF])
             []).
Proof.
  intros HE. unfold run, main, bind. rewrite (build_spec E HE).
  reflexivity.
Qed.

Lemma env_empty_fails : reads_fail_with_Exception env_empty.
Proof. intros key filename e _. unfold open_read. simpl. now intros [= <-]. Qed.

Lemma env_readme_fails bs : reads_fail_with_Exception (env_readme bs).
Proof.
  intros key filename e _. unfold open_read. simpl.
  destruct (pystr_eqb _ _).
  - destruct (decode_bytes bs); [discriminate | now intros [= <-]].
  - now intros [= <-].
Qed.

Lemma universal_newlines_no_CR (s : pystr) :
  ~ In CR s -> universal_newlines s = s.
Proof.
  induction s as [|c s IH]; intros H; [reflexivity|].
  cbn [universal_newlines].
  destruct (c =? CR) eqn:Hc.
  - apply N.eqb_eq in Hc. exfalso; apply H; now left.
  - rewrite IH; [reflexivity | intros Hin; apply H; now right].
Qed.

Lemma entry_of_In E key filename :
  In (key, filename) pages_map ->
  dict_get (List.map (entry_of E) pages_map) key
  = Some (snd (entry_of E (key, filename))).
Proof.
  intros Hin. apply dict_get_In.
  - rewrite keys_entry_of. apply pages_map_keys_NoDup.
  - change (key, snd (entry_of E (key, filename)))
      with (entry_of E (key, filename)).
    now apply in_map.
Qed.


(** ** Hexadecimal digits *)

Ltac divmod := zify; Z.to_euclidean_division_equations; lia.

Lemma hexval_hexdigit d : d < 16 -> hexval (hexdigit d) = Some d.
Proof.
  intros Hd. unfold hexval, hexdigit.
  destruct (d <? 10) eqn:H10.
  - apply N.ltb_lt in H10.
    replace ((48 <=? 48 + d) && (48 + d <=? 57)) with true
      by (symmetry; apply andb_true_iff; split; apply N.leb_le; lia).
    f_equal. lia.
  - apply N.ltb_ge in H10.
    replace ((48 <=? 87 + d) && (87 + d <=? 57)) with false
      by (symmetry; apply andb_false_iff; right; apply N.leb_gt; lia).
    replace ((97 <=? 87 + d) && (87 + d <=? 102)) with true
      by (symmetry; apply andb_true_iff; split; apply N.leb_le; lia).
    f_equal. lia.
Qed.

Lemma hex4_nested n :
  hex4 n = [hexdigit (n / 16 / 16 / 16); hexdigit (n / 16 / 16 mod 16);
            hexdigit (n / 16 mod 16); hexdigit (n mod 16)].
Proof.
  unfold hex4. rewrite !N.Div0.div_div. reflexivity.
Qed.

Lemma decode_hex4 (n : N) :
  n < 0x10000 ->
  match hex4 n with
  | [a; b; c; d] => decode_uXXXX a b c d = Some n
  | _ => False
  end.
Proof.
  intros Hn. rewrite hex4_nested. unfold decode_uXXXX.
  rewrite (hexval_hexdigit (n / 16 / 16 / 16)) by divmod.
  rewrite (hexval_hexdigit (n / 16 / 16 mod 16)) by divmod.
  rewrite (hexval_hexdigit (n / 16 mod 16)) by divmod.
  rewrite (hexval_hexdigit (n mod 16)) by divmod.
  f_equal. divmod.
Qed.

Lemma format_04x_hex4 (n : N) : n < 0x10000 -> format_04x n = hex4 n.
Proof.
  intros Hn. rewrite hex4_nested. unfold format_04x, format_x.
  destruct (n <? 16) eqn:H1.
  - cbn [hex_digits]. rewrite H1. cbn [List.length Nat.sub repeat app].
    apply N.ltb_lt in H1.
    replace (n / 16 / 16 / 16) with 0 by divmod.
    replace (n / 16 / 16 mod 16) with 0 by divmod.
    replace (n / 16 mod 16) with 0 by divmod.
    replace (n mod 16) with n by divmod. reflexivity.
  - apply N.ltb_ge in H1.
    assert (Hl : 4 <= N.log2 n) by (change 4 with (N.log2 16); now apply N.log2_le_mono).
    destruct (N.to_nat (N.log2 n)) as [|[|[|[|m]]]] eqn:Hm; try lia.
    cbn [hex_digits].
    replace (n <? 16) with false by (symmetry; apply N.ltb_ge; lia).
    destruct (n / 16 <? 16) eqn:H2; [|destruct (n / 16 / 16 <? 16) eqn:H3;[|destruct (n / 16 / 16 / 16 <? 16) eqn:H4]];
    rewrite ?N.ltb_lt, ?N.ltb_ge in *; cbn [List.length Nat.sub repeat app].
    + replace (n / 16 / 16 / 16) with 0 by divmod.
      replace (n / 16 / 16 mod 16) with 0 by divmod.
      replace (n / 16 mod 16) with (n / 16) by divmod. reflexivity.
    + replace (n / 16 / 16 / 16) with 0 by divmod.
      replace (n / 16 / 16 mod 16) with (n / 16 / 16) by divmod.
      reflexivity.
    + replace (n / 16 / 16 mod 16) with (n / 16 / 16 mod 16) by divmod.
      reflexivity.
    + exfalso. divmod.
Qed.

(** ** Surrogate pairs *)

Lemma lor_shiftl_low (h l k : N) :
  l < 2 ^ k -> N.lor (N.shiftl h k) l = N.shiftl h k + l.
Proof.
  intros Hl.
  assert (Hland : N.land (N.shiftl h k) l = 0).
  { apply N.bits_inj. intros m. rewrite N.land_spec, N.bits_0.
    destruct (N.lt_ge_cases m k) as [Hm|Hm].
    - now rewrite N.shiftl_spec_low.
    - rewrite <- (N.mod_small l (2 ^ k)) by exact Hl.
      rewrite N.mod_pow2_bits_high by exact Hm. apply andb_false_r. }
  rewrite N.add_nocarry_lxor by exact Hland.
  now rewrite N.lxor_lor.
Qed.

Lemma high_surrogate (n : N) :
  n < 0x100000 ->
  N.lor 0xd800 (N.land (N.shiftr n 10) 0x3ff) = 0xd800 + n / 1024.
Proof.
  intros Hn. change 0x3ff with (N.ones 10).
  rewrite N.land_ones, N.shiftr_div_pow2. change (2 ^ 10) with 1024.
  rewrite N.mod_small by divmod.
  change 0xd800 with (N.shiftl 54 10).
  apply lor_shiftl_low. change (2 ^ 10) with 1024. divmod.
Qed.

Lemma low_surrogate (n : N) :
  N.lor 0xdc00 (N.land n 0x3ff) = 0xdc00 + n mod 1024.
Proof.
  change 0x3ff with (N.ones 10). rewrite N.land_ones.
  change (2 ^ 10) with 1024. change 0xdc00 with (N.shiftl 55 10).
  apply lor_shiftl_low. change (2 ^ 10) with 1024. divmod.
Qed.

Lemma surrogates_combine (n : N) :
  n < 0x100000 ->
  0x10000 + N.lor (N.shiftl (0xd800 + n / 1024 - 0xd800) 10)
                  (0xdc00 + n mod 1024 - 0xdc00)
  = 0x10000 + n.
Proof.
  intros Hn.
  replace (0xd800 + n / 1024 - 0xd800) with (n / 1024) by divmod.
  replace (0xdc00 + n mod 1024 - 0xdc00) with (n mod 1024) by divmod.
  rewrite lor_shiftl_low by (change (2 ^ 10) with 1024; divmod).
  rewrite N.shiftl_mul_pow2. change (2 ^ 10) with 1024. divmod.
Qed.

(** ** Decoded text is well formed *)

Ltac bools :=
  repeat match goal with
  | H : _ && _ = true |- _ => apply andb_true_iff in H; destruct H
  | H : negb _ = true |- _ => apply negb_true_iff in H
  | H : _ && _ = false |- _ => apply andb_false_iff in H; destruct H
  | H : (_ <? _) = true |- _ => apply N.ltb_lt in H
  | H : (_ <? _) = false |- _ => apply N.ltb_ge in H
  | H : (_ <=? _) = true |- _ => apply N.leb_le in H
  | H : (_ <=? _) = false |- _ => apply N.leb_gt in H
  | H : (_ =? _) = true |- _ => apply N.eqb_eq in H
  | H : (_ =? _) = false |- _ => apply N.eqb_neq in H
  end.

Lemma option_map_cons_Some (c : N) (o : option pystr) (s : pystr) :
  option_map (cons c) o = Some s ->
  exists s', o = Some s' /\ s = c :: s'.
Proof.
  destruct o as [s'|]; simpl; [|discriminate].
  intros [= <-]. now exists s'.
Qed.

Lemma utf8_decode_wellformed (k : nat) :
  forall bs s,
    (List.length bs <= k)%nat ->
    Forall (fun b => b < 256) bs ->
    utf8_decode bs = Some s ->
    wellformed s.
Proof.
  unfold wellformed.
  induction k as [|k IH]; intros bs s Hlen Hb Hdec.
  - destruct bs; [|simpl in Hlen; lia]. cbn in Hdec. injection Hdec as <-. constructor.
  - destruct bs as [|ch r0]; [cbn in Hdec; injection Hdec as <-; constructor|].
    cbn [utf8_decode] in Hdec. unfold is_cont in Hdec. simpl in Hlen.
    inversion Hb as [|? ? Hch Hr0]; subst.
    destruct (ch <? 0x80) eqn:T1.
    { apply option_map_cons_Some in Hdec as [s' [Hs' ->]].
      constructor; [unfold scalar; bools; lia|].
      apply (IH r0); [lia|assumption|assumption]. }
    destruct (ch <? 0xC2) eqn:T2; [discriminate|].
    destruct (ch <? 0xE0) eqn:T3.
    { destruct r0 as [|ch2 r1]; [discriminate|].
      destruct ((0x80 <=? ch2) && (ch2 <? 0xC0)) eqn:C2; [|discriminate].
      apply option_map_cons_Some in Hdec as [s' [Hs' ->]].
      inversion Hr0; subst. simpl in Hlen.
      constructor.
      - unfold scalar. rewrite !N.shiftl_mul_pow2.
        change (2 ^ 6) with 64. bools. lia.
      - apply (IH r1); [lia|assumption|assumption]. }
    destruct (ch <? 0xF0) eqn:T4.
    { destruct r0 as [|ch2 [|ch3 r2]]; try discriminate.
      match type of Hdec with (if ?c then _ else _) = _ =>
        destruct c eqn:C3; [|discriminate] end.
      apply option_map_cons_Some in Hdec as [s' [Hs' ->]].
      inversion Hr0 as [|? ? ? Hr1]; subst. inversion Hr1; subst.
      simpl in Hlen.
      constructor.
      - unfold scalar. rewrite !N.shiftl_mul_pow2.
        change (2 ^ 6) with 64. change (2 ^ 12) with 4096.
        bools; lia.
      - apply (IH r2); [lia|assumption|assumption]. }
    destruct (ch <? 0xF5) eqn:T5; [|discriminate].
    destruct r0 as [|ch2 [|ch3 [|ch4 r3]]]; try discriminate.
    match type of Hdec with (if ?c then _ else _) = _ =>
      destruct c eqn:C4; [|discriminate] end.
    apply option_map_cons_Some in Hdec as [s' [Hs' ->]].
    inversion Hr0 as [|? ? ? Hr1]; subst.
    inversion Hr1 as [|? ? ? Hr2]; subst. inversion Hr2; subst.
    simpl in Hlen.
    constructor.
    + unfold scalar. rewrite !N.shiftl_mul_pow2.
      change (2 ^ 6) with 64. change (2 ^ 12) with 4096.
      change (2 ^ 18) with 262144.
      bools; lia.
    + apply (IH r3); [lia|assumption|assumption].
Qed.

Lemma universal_newlines_wellformed (s : pystr) :
  wellformed s -> wellformed (universal_newlines s).
Proof.
  unfold wellformed.
  assert (HLF : scalar LF) by (unfold scalar, LF; lia).
  assert (H : forall k s, (List.length s <= k)%nat ->
                Forall scalar s -> Forall scalar (universal_newlines s)).
  { induction k as [|k IH]; intros [|c r] Hlen Hs; try constructor;
      simpl in Hlen; try lia.
    cbn [universal_newlines]. inversion Hs as [|? ? Hc Hr]; subst.
    destruct (c =? CR).
    - destruct r as [|d r']; [constructor; [exact HLF | constructor]|].
      inversion Hr; subst. simpl in Hlen.
      destruct (d =? LF); constructor; try assumption;
        apply IH; simpl; try lia; assumption.
    - constructor; [assumption|]. apply IH; [lia | assumption]. }
  apply (H (List.length s)). lia.
Qed.

Lemma open_read_wellformed E path text :
  open_read E path = inr text -> wellformed text.
Proof.
  unfold open_read, decode_bytes.
  destruct (fs_read E path) as [e|bs]; [discriminate|].
  destruct (utf8_decode (List.map Byte.to_N bs)) as [s|] eqn:Hdec;
    [|discriminate].
  intros [= <-]. apply universal_newlines_wellformed.
  apply (utf8_decode_wellformed _ (List.map Byte.to_N bs) s (le_n _));
    [|exact Hdec].
  apply Forall_forall. intros b Hb. apply in_map_iff in Hb.
  destruct Hb as [x [<- _]]. pose proof (Byte.to_N_bounded x). lia.
Qed.

(** ** The encoder emits ASCII only *)

Lemma hexdigit_ascii (d : N) : d < 16 -> hexdigit d < 128.
Proof. intros Hd. unfold hexdigit. destruct (d <? 10); lia. Qed.

Lemma hex_digits_ascii (fuel : nat) :
  forall n, ascii_only (hex_digits fuel n).
Proof.
  unfold ascii_only.
  induction fuel as [|fuel IH]; intros n; cbn [hex_digits]; [constructor|].
  destruct (n <? 16) eqn:Hn.
  - apply N.ltb_lt in Hn. constructor; [now apply hexdigit_ascii|constructor].
  - apply Forall_app. split; [apply IH|].
    constructor; [|constructor]. apply hexdigit_ascii. divmod.
Qed.

Lemma format_04x_ascii (n : N) : ascii_only (format_04x n).
Proof.
  unfold format_04x, format_x, ascii_only. apply Forall_app. split.
  - apply Forall_forall. intros c Hc. apply repeat_spec in Hc. subst. lia.
  - apply hex_digits_ascii.
Qed.

Lemma replace_ascii (c : N) : ascii_only (replace c).
Proof.
  assert (Hu : forall n, ascii_only ([BACKSLASH; 117] ++ format_04x n)).
  { intros n. unfold ascii_only. apply Forall_app. split.
    - repeat constructor.
    - apply format_04x_ascii. }
  unfold replace, ESCAPE_DCT.
  repeat match goal with
         | |- context [if ?b then _ else _] => destruct b
         end;
    try apply Hu; try (unfold ascii_only; repeat constructor; fail).
  unfold ascii_only. apply Forall_app. split; [repeat constructor|].
  apply Forall_app. split; [apply format_04x_ascii|]. apply Hu.
Qed.

Lemma escape_char_ascii (c : N) : ascii_only (escape_char c).
Proof.
  unfold escape_char, ESCAPE_ASCII.
  destruct ((c =? BACKSLASH) || (c =? QUOTE)
            || negb ((SPACE <=? c) && (c <=? 126))) eqn:He.
  - apply replace_ascii.
  - apply orb_false_iff in He as [_ He]. apply negb_false_iff in He.
    apply andb_true_iff in He as [_ He]. apply N.leb_le in He.
    constructor; [lia | constructor].
Qed.

Lemma escaped_ascii (s : pystr) : ascii_only (escaped s).
Proof.
  unfold escaped, ascii_only. induction s as [|c s IH]; cbn [flat_map].
  - constructor.
  - apply Forall_app. split; [apply escape_char_ascii | exact IH].
Qed.

Lemma encode_basestring_ascii_ascii (s : pystr) :
  ascii_only (encode_basestring_ascii s).
Proof.
  unfold encode_basestring_ascii, ascii_only.
  apply Forall_app. split; [repeat constructor|].
  apply Forall_app. split; [apply escaped_ascii | repeat constructor].
Qed.

(** ** The shape of the literal *)

Lemma iterencode_items_rest (sep ksep : pystr) (rest : dict) :
  List.concat (iterencode_items sep ksep false rest)
  = flat_map (fun kv => sep ++ encode_basestring_ascii (fst kv) ++ ksep
                        ++ encode_basestring_ascii (snd kv)) rest.
Proof.
  induction rest as [|[k v] rest IH]; [reflexivity|].
  cbn [iterencode_items flat_map fst snd]. rewrite !concat_app, IH.
  cbn [List.concat]. rewrite app_nil_r. now rewrite <- !app_assoc.
Qed.

Lemma iterencode_items_first (sep ksep : pystr) (k v : pystr) (rest : dict) :
  List.concat (iterencode_items sep ksep true ((k, v) :: rest))
  = encode_basestring_ascii k ++ ksep ++ encode_basestring_ascii v
    ++ flat_map (fun kv => sep ++ encode_basestring_ascii (fst kv) ++ ksep
                           ++ encode_basestring_ascii (snd kv)) rest.
Proof.
  cbn [iterencode_items]. rewrite !concat_app, iterencode_items_rest.
  cbn [List.concat]. rewrite app_nil_r. now rewrite <- !app_assoc.
Qed.

Lemma join_cons (sep : pystr) (p : pystr) (parts : list pystr) :
  join sep (p :: parts) = p ++ flat_map (fun q => sep ++ q) parts.
Proof.
  revert p. induction parts as [|q parts IH]; intros p.
  - cbn [join flat_map]. now rewrite app_nil_r.
  - change (join sep (p :: q :: parts)) with (p ++ sep ++ join sep (q :: parts)).
    rewrite IH. cbn [flat_map]. now rewrite <- !app_assoc.
Qed.

Lemma flat_map_map {A B C} (f : B -> list C) (g : A -> B) (l : list A) :
  flat_map f (List.map g l) = flat_map (fun x => f (g x)) l.
Proof. induction l as [|x l IH]; cbn [List.map flat_map]; congruence. Qed.

Lemma json_dumps_indented (d : dict) :
  d <> [] -> json_dumps d 4 = indented_literal d.
Proof.
  destruct d as [|[k v] rest]; [congruence|]. intros _.
  unfold json_dumps, _iterencode_dict, indented_literal.
  rewrite !concat_app, iterencode_items_first.
  cbn [List.map]. rewrite join_cons, flat_map_map.
  unfold member_line. cbn [fst snd List.concat].
  unfold str_mul. cbn [repeat List.concat Nat.sub]. rewrite !app_nil_r.
  rewrite <- !app_assoc. reflexivity.
Qed.

Lemma json_dumps_members (k v : pystr) (rest : dict) :
  json_dumps ((k, v) :: rest) 4
  = LBRACE :: LF :: SPACE :: SPACE :: SPACE :: SPACE :: QUOTE
    :: members_text k v rest.
Proof.
  unfold json_dumps, _iterencode_dict.
  rewrite !concat_app, iterencode_items_first.
  unfold str_mul. cbn [repeat List.concat Nat.sub]. rewrite !app_nil_r.
  change (py "{" ++ ([LF] ++ [SPACE; SPACE; SPACE; SPACE]) ++ ?x)
    with (LBRACE :: LF :: SPACE :: SPACE :: SPACE :: SPACE :: x).
  do 6 f_equal.
  revert k v. induction rest as [|[k' v'] rest IH]; intros k v.
  - cbn [flat_map members_text]. unfold encode_basestring_ascii.
    fold (escaped k) (escaped v). rewrite <- !app_assoc. reflexivity.
  - cbn [flat_map members_text fst snd]. rewrite <- !app_assoc.
    rewrite <- (IH k' v').
    unfold encode_basestring_ascii. fold (escaped k) (escaped v).
    rewrite <- !app_assoc. reflexivity.
Qed.

Lemma members_text_longer (rest : dict) :
  forall k v, (List.length rest < List.length (members_text k v rest))%nat.
Proof.
  induction rest as [|[k' v'] rest IH]; intros k v;
    cbn [members_text]; rewrite !length_app; cbn [List.length];
    rewrite ?length_app; cbn [List.length]; [lia|].
  specialize (IH k' v'). lia.
Qed.

(** ** Reading an escaped string back *)

Lemma scan_plain (c : N) (tail acc : pystr) :
  ESCAPE_ASCII c = false ->
  scanstring (c :: tail) acc = scanstring tail (c :: acc).
Proof.
  unfold ESCAPE_ASCII. intros H.
  apply orb_false_iff in H as [H Hr]. apply orb_false_iff in H as [Hb Hq].
  apply negb_false_iff in Hr. apply andb_true_iff in Hr as [Hlo _].
  cbn [scanstring]. rewrite Hq, Hb.
  replace (c <? 0x20) with false; [reflexivity|].
  symmetry. apply N.ltb_ge. apply N.leb_le in Hlo. exact Hlo.
Qed.

Lemma scan_short (e ch : N) (tail acc : pystr) :
  (e =? 117) = false ->
  BACKSLASH_DCT e = Some ch ->
  scanstring (BACKSLASH :: e :: tail) acc = scanstring tail (ch :: acc).
Proof.
  intros Hu He. cbn [scanstring].
  change (BACKSLASH =? QUOTE) with false.
  change (BACKSLASH =? BACKSLASH) with true. cbv iota.
  now rewrite Hu, He.
Qed.

Lemma scan_u (uni : N) (tail acc : pystr) :
  uni < 0x10000 ->
  (0xd800 <=? uni) && (uni <=? 0xdbff) = false ->
  scanstring ([BACKSLASH; 117] ++ format_04x uni ++ tail) acc
  = scanstring tail (uni :: acc).
Proof.
  intros Hn Hs. rewrite format_04x_hex4 by exact Hn.
  pose proof (decode_hex4 uni Hn) as Hd. unfold hex4 in *.
  cbn [app scanstring].
  change (BACKSLASH =? QUOTE) with false.
  change (BACKSLASH =? BACKSLASH) with true.
  change (117 =? 117) with true. cbv iota.
  now rewrite Hd, Hs.
Qed.

Lemma scan_pair (hi lo : N) (tail acc : pystr) :
  hi < 0x10000 -> lo < 0x10000 ->
  (0xd800 <=? hi) && (hi <=? 0xdbff) = true ->
  (0xdc00 <=? lo) && (lo <=? 0xdfff) = true ->
  scanstring ([BACKSLASH; 117] ++ format_04x hi
              ++ [BACKSLASH; 117] ++ format_04x lo ++ tail) acc
  = scanstring tail
      (0x10000 + N.lor (N.shiftl (hi - 0xd800) 10) (lo - 0xdc00) :: acc).
Proof.
  intros Hhi Hlo Hh Hl. rewrite !format_04x_hex4 by assumption.
  pose proof (decode_hex4 hi Hhi) as Hd1.
  pose proof (decode_hex4 lo Hlo) as Hd2. unfold hex4 in *.
  cbn [app scanstring].
  change (BACKSLASH =? QUOTE) with false.
  change (BACKSLASH =? BACKSLASH) with true.
  change (117 =? 117) with true. cbv iota.
  rewrite Hd1, Hh. cbn [andb]. cbv iota. now rewrite Hd2, Hl.
Qed.

Lemma scan_escape_char (c : N) (tail acc : pystr) :
  scalar c ->
  scanstring (escape_char c ++ tail) acc = scanstring tail (c :: acc).
Proof.
  intros [Hmax Hsur]. unfold escape_char.
  destruct (ESCAPE_ASCII c) eqn:He; [|now apply scan_plain].
  unfold replace, ESCAPE_DCT.
  destruct (c =? BACKSLASH) eqn:T1;
    [apply N.eqb_eq in T1; subst; now apply scan_short|].
  destruct (c =? QUOTE) eqn:T2;
    [apply N.eqb_eq in T2; subst; now apply scan_short|].
  destruct (c =? 8) eqn:T3;
    [apply N.eqb_eq in T3; subst; now apply scan_short|].
  destruct (c =? 12) eqn:T4;
    [apply N.eqb_eq in T4; subst; now apply scan_short|].
  destruct (c =? LF) eqn:T5;
    [apply N.eqb_eq in T5; subst; now apply scan_short|].
  destruct (c =? CR) eqn:T6;
    [apply N.eqb_eq in T6; subst; now apply scan_short|].
  destruct (c =? 9) eqn:T7;
    [apply N.eqb_eq in T7; subst; now apply scan_short|].
  assert (Hns : c < 0x10000 ->
                (0xd800 <=? c) && (c <=? 0xdbff) = false).
  { intros _. apply andb_false_iff.
    destruct (0xd800 <=? c) eqn:Hlo; [right | now left].
    apply N.leb_le in Hlo. apply N.leb_gt. lia. }
  destruct (c <? 0x20) eqn:T8.
  { apply N.ltb_lt in T8. rewrite <- app_assoc.
    apply scan_u; [lia | apply Hns; lia]. }
  destruct (c <? 0x10000) eqn:T9.
  { apply N.ltb_lt in T9. rewrite <- app_assoc.
    apply scan_u; [lia | now apply Hns]. }
  apply N.ltb_ge in T9. cbv zeta.
  rewrite high_surrogate, low_surrogate by lia.
  rewrite <- !app_assoc.
  rewrite scan_pair.
  - rewrite surrogates_combine by lia. do 2 f_equal. lia.
  - divmod.
  - divmod.
  - apply andb_true_iff. split; apply N.leb_le; divmod.
  - apply andb_true_iff. split; apply N.leb_le; divmod.
Qed.

Lemma scan_escaped (s : pystr) :
  wellformed s ->
  forall tail acc,
    scanstring (escaped s ++ QUOTE :: tail) acc = Some (rev acc ++ s, tail).
Proof.
  unfold wellformed, escaped.
  induction 1 as [|c s Hc Hs IH]; intros tail acc.
  - cbn [flat_map app scanstring]. change (QUOTE =? QUOTE) with true.
    cbv iota. now rewrite app_nil_r.
  - cbn [flat_map]. rewrite <- app_assoc, scan_escape_char by exact Hc.
    rewrite IH. cbn [rev]. now rewrite <- app_assoc.
Qed.

(** ** Reading the object back *)

Lemma parse_member_step (fuel : nat) (k v tail : pystr) (pairs : dict) :
  wellformed k -> wellformed v ->
  parse_members (S fuel)
    (escaped k ++ QUOTE :: COLON :: SPACE :: QUOTE :: escaped v
     ++ QUOTE :: tail) pairs
  = match skip_ws tail with
    | n :: s5 =>
      if n =? RBRACE then Some (pairs ++ [(k, v)], s5)
      else if n =? COMMA then
        match skip_ws s5 with
        | q' :: s6 =>
          if q' =? QUOTE then parse_members fuel s6 (pairs ++ [(k, v)])
          else None
        | [] => None
        end
      else None
    | [] => None
    end.
Proof.
  intros Hk Hv. cbn [parse_members].
  rewrite (scan_escaped k Hk). cbn [rev app].
  change (skip_ws (COLON :: ?s)) with (COLON :: s).
  change (COLON =? COLON) with true. cbv iota.
  change (skip_ws (SPACE :: QUOTE :: ?s)) with (QUOTE :: s).
  change (QUOTE =? QUOTE) with true. cbv iota.
  rewrite (scan_escaped v Hv). cbn [rev app]. reflexivity.
Qed.

Lemma parse_members_text (rest : dict) :
  forall k v pairs fuel,
    (List.length rest < fuel)%nat ->
    wellformed k -> wellformed v ->
    Forall (fun kv => wellformed (fst kv) /\ wellformed (snd kv)) rest ->
    parse_members fuel (members_text k v rest) pairs
    = Some (pairs ++ (k, v) :: rest, []).
Proof.
  induction rest as [|[k' v'] rest IH]; intros k v pairs fuel Hfuel Hk Hv Hr;
    (destruct fuel as [|fuel]; [simpl in Hfuel; lia|]);
    cbn [members_text]; rewrite (parse_member_step _ _ _ _ _ Hk Hv).
  - reflexivity.
  - inversion Hr as [|? ? [Hk' Hv'] Hr']; subst. cbn [fst snd] in *.
    change (skip_ws (COMMA :: ?s)) with (COMMA :: s).
    change (COMMA =? RBRACE) with false.
    change (COMMA =? COMMA) with true. cbv iota.
    change (skip_ws (LF :: SPACE :: SPACE :: SPACE :: SPACE :: QUOTE :: ?s))
      with (QUOTE :: s).
    change (QUOTE =? QUOTE) with true. cbv iota.
    rewrite IH by (simpl in Hfuel; try lia; assumption).
    now rewrite <- app_assoc.
Qed.

Lemma dict_of_pairs_NoDup (d : dict) :
  NoDup (keys d) -> dict_of_pairs d = d.
Proof.
  intros Hnd. unfold dict_of_pairs. now rewrite fold_dict_set_fresh.
Qed.

Lemma json_loads_dumps (d : dict) :
  content_map d -> json_loads (json_dumps d 4) = Some d.
Proof.
  intros [Hnd Hwf]. destruct d as [|[k v] rest]; [reflexivity|].
  inversion Hwf as [|? ? [Hk Hv] Hrest]; subst. cbn [fst snd] in *.
  rewrite json_dumps_members. unfold json_loads.
  change (skip_ws (LBRACE :: ?s)) with (LBRACE :: s).
  change (LBRACE =? LBRACE) with true. cbv iota.
  change (skip_ws (LF :: SPACE :: SPACE :: SPACE :: SPACE :: QUOTE :: ?s))
    with (QUOTE :: s).
  change (QUOTE =? RBRACE) with false.
  change (QUOTE =? QUOTE) with true. cbv iota zeta.
  rewrite parse_members_text; try assumption.
  - change (LBRACE =? LBRACE) with true.
    change (QUOTE =? RBRACE) with false.
    change (QUOTE =? QUOTE) with true. cbv iota. cbn [skip_ws].
    now rewrite dict_of_pairs_NoDup.
  - pose proof (members_text_longer rest k v). cbn [List.length]. lia.
Qed.

Lemma wellformed_check (s : pystr) : forallb scalarb s = true -> wellformed s.
Proof.
  intros H. apply Forall_forall. intros c Hc.
  rewrite forallb_forall in H. specialize (H c Hc). unfold scalarb in H.
  apply andb_true_iff in H as [Hlt Hs]. apply N.ltb_lt in Hlt.
  apply negb_true_iff, andb_false_iff in Hs.
  split; [exact Hlt|]. intros [Hlo Hhi].
  destruct Hs as [Hs|Hs]; apply N.leb_gt in Hs; lia.
Qed.


(** ** The serialized text is ASCII *)




(** ** The maps the loop builds are content maps *)

Lemma registry_strings_wellformed :
  Forall (fun kv => wellformed (fst kv) /\ wellformed (fallback (snd kv)))
         pages_map.
Proof.
  apply Forall_forall. intros kv Hin.
  assert (H : forallb (fun kv => forallb scalarb (fst kv)
                                 && forallb scalarb (fallback (snd kv)))
                      pages_map = true) by (vm_compute; reflexivity).
  rewrite forallb_forall in H. specialize (H kv Hin).
  apply andb_true_iff in H as [Hk Hf].
  split; now apply wellformed_check.
Qed.

Lemma built_map_is_content_map E :
  content_map (List.map (entry_of E) pages_map).
Proof.
  split.
  - rewrite keys_entry_of. apply pages_map_keys_NoDup.
  - apply Forall_forall. intros kv Hin. apply in_map_iff in Hin.
    destruct Hin as [[key filename] [<- Hin]].
    pose proof registry_strings_wellformed as Hreg.
    rewrite Forall_forall in Hreg. destruct (Hreg _ Hin) as [Hk Hf].
    unfold entry_of. cbn [fst snd] in *. split; [exact Hk|].
    destruct (open_read E (path_of filename)) as [e|text] eqn:Hr;
      [exact Hf | exact (open_read_wellformed _ _ _ Hr)].
Qed.

(** Every completed run printed a literal that reads back as the map it
    was made from. *)
Lemma built_map_roundtrips E :
  reads_fail_with_Exception E ->
  exists d w,
    build E world0 = (inr d, w) /\
    content_map d /\
    json_loads (json_dumps d 4) = Some d.
Proof.
  intros HE. rewrite (build_spec E HE). do 2 eexists.
  split; [reflexivity|].
  split; [apply built_map_is_content_map|].
  apply json_loads_dumps, built_map_is_content_map.
Qed.

(* ================================================================== *)
(** * The specification's claims *)

(** C1 (as the code has it).  For a registry entry whose file can be read
    and holds well-formed UTF-8, the content map entry is the decoded text
    after universal-newline translation: every CR LF pair and every lone
    CR arrives as LF.  Nothing else is changed, so a text without CR is
    stored exactly as decoded. *)
Theorem read_entry_is_decoded_text_with_newlines_translated
  E key filename bs text :
  reads_fail_with_Exception E ->
  In (key, filename) pages_map ->
  fs_read E (path_of filename) = inr bs ->
  decode_bytes bs = Some text ->
  exists d w,
    build E world0 = (inr d, w) /\
    dict_get d key = Some (universal_newlines text) /\
    (~ In CR text -> dict_get d key = Some text).
Proof.
  intros HE Hin Hfs Hdec.
  assert (Hr : open_read E (path_of filename)
               = inr (universal_newlines text))
    by (unfold open_read; now rewrite Hfs, Hdec).
  exists (List.map (entry_of E) pages_map),
         (mkWorld (flat_map (diagnostic E) pages_map) []).
  split; [apply build_spec, HE|].
  rewrite (entry_of_In E key filename Hin).
  rewrite (entry_of_read _ _ _ _ Hr). cbn [snd].
  split; [reflexivity|].
  intros Hcr. now rewrite universal_newlines_no_CR.
Qed.

Lemma read_entry_is_decoded_text_with_newlines_translated_witness :
  exists d w,
    build (env_readme tricky_file) world0 = (inr d, w) /\
    dict_get d (py "home")
    = Some (universal_newlines [34; 92; 10; 233; 128512]) /\
    (~ In CR [34; 92; 10; 233; 128512] ->
     dict_get d (py "home") = Some [34; 92; 10; 233; 128512]).
Proof.
  apply (read_entry_is_decoded_text_with_newlines_translated
           (env_readme tricky_file) (py "home") (py "README.md")
           tricky_file).
  - intros key filename e _. unfold open_read. simpl.
    destruct (pystr_eqb _ _).
    + destruct (decode_bytes tricky_file); [discriminate|].
      now intros [= <-].
    + now intros [= <-].
  - left; reflexivity.
  - reflexivity.
  - reflexivity.
Defined.

(** C1, refuted as stated: a file holding the four bytes a, CR, LF, b
    decodes to those four characters, yet the entry stored for it has
    three: the line end was normalised. *)
Lemma crlf_file_is_normalised :
  decode_bytes crlf_file = Some [97; 13; 10; 98] /\
  exists d w,
    build (env_readme crlf_file) world0 = (inr d, w) /\
    dict_get d (py "home") = Some [97; 10; 98] /\
    dict_get d (py "home") <> decode_bytes crlf_file.
Proof.
  split; [reflexivity|].
  rewrite (build_spec _ (env_readme_fails crlf_file)).
  do 2 eexists. split; [reflexivity|].
  split; [reflexivity | discriminate].
Qed.

(** C2 (as the code has it).  When the read of a registry entry fails, the
    line [Error reading <path>: <fault>] and its line end are written to
    standard output, ahead of the serialized assignment; nothing is ever
    written to the error stream; and the run goes on to completion. *)
Theorem diagnostic_line_goes_to_stdout E key filename e :
  reads_fail_with_Exception E ->
  In (key, filename) pages_map ->
  open_read E (path_of filename) = inl e ->
  fst (run E) = Completed /\
  stderr (snd (run E)) = [] /\
  exists before after d,
    stdout (snd (run E))
    = before
      ++ (py "Error reading " ++ path_of filename ++ py ": " ++ exn_str e
          ++ [LF])
      ++ after ++ js_content d ++ [LF].
Proof.
  intros HE Hin Hr. rewrite (run_spec E HE). cbn [fst snd stdout stderr].
  split; [reflexivity|]. split; [reflexivity|].
  destruct (in_split _ _ Hin) as [l1 [l2 Hsplit]].
  exists (flat_map (diagnostic E) l1), (flat_map (diagnostic E) l2),
         (List.map (entry_of E) pages_map).
  rewrite Hsplit at 1. rewrite flat_map_app. cbn [flat_map].
  unfold diagnostic at 2. cbn [snd]. rewrite Hr.
  now rewrite <- !app_assoc.
Qed.

Lemma diagnostic_line_goes_to_stdout_witness :
  fst (run env_empty) = Completed /\
  stderr (snd (run env_empty)) = [] /\
  exists before after d,
    stdout (snd (run env_empty))
    = before
      ++ (py "Error reading " ++ path_of (py "ci-cd.md") ++ py ": "
          ++ exn_str (errno2 (py "docs/guide/ci-cd.md")) ++ [LF])
      ++ after ++ js_content d ++ [LF].
Proof.
  apply (diagnostic_line_goes_to_stdout env_empty (py "ci-cd")
           (py "ci-cd.md") (errno2 (py "docs/guide/ci-cd.md"))).
  - intros key filename e _. unfold open_read. simpl. now intros [= <-].
  - simpl. do 19 right. left. reflexivity.
  - reflexivity.
Defined.

(** C2, refuted as stated: with no file on disk the error stream stays
    empty, and standard output opens with the diagnostic line of the
    first entry. *)
Lemma diagnostic_not_on_stderr :
  let line :=
    py "Error reading docs/guide/README.md: " ++
    py "[Errno 2] No such file or directory: 'docs/guide/README.md'" in
  stderr (snd (run env_empty)) = [] /\
  firstn (List.length line + 1) (stdout (snd (run env_empty)))
  = line ++ [LF].
Proof. split; vm_compute; reflexivity. Qed.

(** C4.  Whatever reads fail, the loop ends with a map that has one entry
    per registry entry: its keys are the registry's identifiers, in
    registry order, as many as the registry has, none of them twice. *)
Theorem content_map_keys_are_registry_keys E :
  reads_fail_with_Exception E ->
  exists d w,
    build E world0 = (inr d, w) /\
    keys d = keys pages_map /\
    List.length d = List.length pages_map /\
    NoDup (keys d).
Proof.
  intros HE. rewrite (build_spec E HE). do 2 eexists.
  split; [reflexivity|]. rewrite keys_entry_of, length_map.
  split; [reflexivity|]. split; [reflexivity|].
  apply pages_map_keys_NoDup.
Qed.

Lemma content_map_keys_are_registry_keys_witness :
  exists d w,
    build (env_readme tricky_file) world0 = (inr d, w) /\
    keys d = keys pages_map /\
    List.length d = List.length pages_map /\
    NoDup (keys d).
Proof.
  apply (content_map_keys_are_registry_keys (env_readme tricky_file)).
  intros key filename e _. unfold open_read. simpl.
  destruct (pystr_eqb _ _).
  - destruct (decode_bytes tricky_file); [discriminate|].
    now intros [= <-].
  - now intros [= <-].
Defined.

(** C5.  For a registry entry whose file is missing, or whose read fails
    in any other way, the content map entry is the text "# Error", a line
    feed, "Could not load " and the registry's relative file name. *)
Theorem failed_entry_is_fallback E key filename e :
  reads_fail_with_Exception E ->
  In (key, filename) pages_map ->
  open_read E (path_of filename) = inl e ->
  exists d w,
    build E world0 = (inr d, w) /\
    dict_get d key
    = Some (py "# Error" ++ [LF] ++ py "Could not load " ++ filename).
Proof.
  intros HE Hin Hr. rewrite (build_spec E HE). do 2 eexists.
  split; [reflexivity|].
  rewrite (entry_of_In E key filename Hin).
  now rewrite (entry_of_failed _ _ _ _ Hr).
Qed.

Lemma failed_entry_is_fallback_witness :
  exists d w,
    build (env_readme tricky_file) world0 = (inr d, w) /\
    dict_get d (py "mocking")
    = Some (py "# Error" ++ [LF] ++ py "Could not load "
            ++ py "mocking.md").
Proof.
  apply (failed_entry_is_fallback (env_readme tricky_file) (py "mocking")
           (py "mocking.md") (errno2 (py "docs/guide/mocking.md"))).
  - intros key filename e _. unfold open_read. simpl.
    destruct (pystr_eqb _ _).
    + destruct (decode_bytes tricky_file); [discriminate|].
      now intros [= <-].
    + now intros [= <-].
  - simpl. do 12 right. left. reflexivity.
  - reflexivity.
Defined.

(** C6.  Failed reads never stop the run: the script reaches its end,
    which is exit status 0, and what it prints ends with the serialized
    map, a map that has every registry identifier, in order, bound to the
    text read for it or, where the read failed, to the fallback text. *)
Theorem run_completes_whatever_fails E :
  reads_fail_with_Exception E ->
  fst (run E) = Completed /\
  exit_status (fst (run E)) = Some 0 /\
  exists diag d,
    stdout (snd (run E)) = diag ++ js_content d ++ [LF] /\
    keys d = keys pages_map /\
    forall key filename,
      In (key, filename) pages_map ->
      dict_get d key
      = Some match open_read E (path_of filename) with
             | inr text => text
             | inl _ => fallback filename
             end.
Proof.
  intros HE. rewrite (run_spec E HE). cbn [fst snd stdout exit_status].
  split; [reflexivity|]. split; [reflexivity|].
  exists (flat_map (diagnostic E) pages_map),
         (List.map (entry_of E) pages_map).
  split; [reflexivity|]. split; [apply keys_entry_of|].
  intros key filename Hin. now rewrite (entry_of_In E key filename Hin).
Qed.

Lemma run_completes_whatever_fails_witness :
  fst (run env_empty) = Completed /\
  exit_status (fst (run env_empty)) = Some 0 /\
  exists diag d,
    stdout (snd (run env_empty)) = diag ++ js_content d ++ [LF] /\
    keys d = keys pages_map /\
    forall key filename,
      In (key, filename) pages_map ->
      dict_get d key
      = Some match open_read env_empty (path_of filename) with
             | inr text => text
             | inl _ => fallback filename
             end.
Proof.
  apply (run_completes_whatever_fails env_empty).
  intros key filename e _. unfold open_read. simpl. now intros [= <-].
Defined.



(** C9 (as the code has it).  The fallback branch is taken for every
    exception that is an instance of [Exception], whatever its kind; when
    nothing else can be raised by the read, an iteration always ends
    normally, with the identifier bound to the file text or to the
    fallback text. *)
Theorem iteration_ends_with_entry_bound E key filename d w :
  (forall e, open_read E (path_of filename) = inl e ->
             issubclass_Exception (exn_cls e) = true) ->
  exists d' w',
    loop_body E (key, filename) d w = (inr d', w') /\
    dict_get d' key
    = Some match open_read E (path_of filename) with
           | inr text => text
           | inl _ => fallback filename
           end.
Proof.
  intros Hexc.
  destruct (open_read E (path_of filename)) as [e|text] eqn:Hr.
  - rewrite (loop_body_caught _ _ _ e d w Hr (Hexc e eq_refl)).
    do 2 eexists. split; [reflexivity | apply dict_get_set_same].
  - rewrite (loop_body_read _ _ _ text d w Hr).
    do 2 eexists. split; [reflexivity | apply dict_get_set_same].
Qed.

Lemma iteration_ends_with_entry_bound_witness :
  exists d' w',
    loop_body env_empty (py "home", py "README.md") [] world0
    = (inr d', w') /\
    dict_get d' (py "home")
    = Some match open_read env_empty (path_of (py "README.md")) with
           | inr text => text
           | inl _ => fallback (py "README.md")
           end.
Proof.
  apply (iteration_ends_with_entry_bound env_empty (py "home")
           (py "README.md") [] world0).
  intros e. unfold open_read. simpl. now intros [= <-].
Defined.

(** C9, refuted as stated: a [KeyboardInterrupt] raised while the first
    file is read is not an [Exception]; the handler is skipped, the
    iteration raises, and so do the loop and the script, with nothing
    bound and nothing printed. *)
Lemma interrupt_escapes_the_loop :
  let e := mkExn KeyboardInterrupt [] in
  open_read env_interrupted (path_of (py "README.md")) = inl e /\
  loop_body env_interrupted (py "home", py "README.md") [] world0
  = (inl e, world0) /\
  build env_interrupted world0 = (inl e, world0) /\
  run env_interrupted = (Uncaught e, world0).
Proof. repeat split. Qed.

(** C3 (as the code has it).  Standard output is: the diagnostic lines of
    the failed reads, if any; then eight spaces, [const embeddedPages = ],
    the literal with one member per line indented by four spaces, a
    semicolon and a line feed; then the line feed [print] adds.  So the
    text ends with two line feeds, not one. *)
Theorem stdout_is_assignment_and_blank_line E :
  reads_fail_with_Exception E ->
  exists d,
    keys d = keys pages_map /\
    stdout (snd (run E))
    = flat_map (diagnostic E) pages_map
      ++ repeat SPACE 8 ++ py "const embeddedPages = "
      ++ indented_literal d ++ py ";" ++ [LF] ++ [LF].
Proof.
  intros HE. rewrite (run_spec E HE). cbn [snd stdout].
  exists (List.map (entry_of E) pages_map).
  split; [apply keys_entry_of|].
  unfold js_content. rewrite json_dumps_indented by discriminate.
  rewrite <- !app_assoc. reflexivity.
Qed.

Lemma stdout_is_assignment_and_blank_line_witness :
  exists d,
    keys d = keys pages_map /\
    stdout (snd (run env_blank))
    = flat_map (diagnostic env_blank) pages_map
      ++ repeat SPACE 8 ++ py "const embeddedPages = "
      ++ indented_literal d ++ py ";" ++ [LF] ++ [LF].
Proof.
  apply (stdout_is_assignment_and_blank_line env_blank).
  intros key filename e _. unfold open_read. simpl. discriminate.
Defined.

(** C3, refuted as stated: with every file present and empty, nothing but
    the assignment is printed, and what reaches standard output is the
    serialized string and one more line feed: its last three characters
    are a semicolon and two line feeds. *)
Lemma stdout_has_second_newline :
  let d := List.map (fun kv => (fst kv, [])) pages_map in
  stdout (snd (run env_blank)) = js_content d ++ [LF] /\
  stdout (snd (run env_blank)) <> js_content d /\
  firstn 3 (rev (stdout (snd (run env_blank)))) = [LF; LF; 59].
Proof.
  cbv zeta. split; [vm_compute; reflexivity|].
  split; [|vm_compute; reflexivity].
  intros H. apply (f_equal (@List.length N)) in H.
  vm_compute in H. discriminate.
Qed.

(** C7.  Reading the literal back with the JSON decoder returns the map
    that was serialized, keys and values alike, for every map with
    distinct keys whose strings hold no surrogate code points, as every
    map the loop builds does; quotes, backslashes, line feeds and
    characters beyond ASCII included. *)
Theorem json_roundtrip (d : dict) :
  content_map d -> json_loads (json_dumps d 4) = Some d.
Proof. apply json_loads_dumps. Qed.

Lemma json_roundtrip_witness :
  json_loads
    (json_dumps [(py "home", [34; 92; 10; 233; 128512]);
                 (py "missing", fallback (py "nope.md"))] 4)
  = Some [(py "home", [34; 92; 10; 233; 128512]);
          (py "missing", fallback (py "nope.md"))].
Proof.
  apply (json_roundtrip
           [(py "home", [34; 92; 10; 233; 128512]);
            (py "missing", fallback (py "nope.md"))]).
  split.
  - apply NoDup_cons; [|apply NoDup_cons; [|apply NoDup_nil]].
    + intros [H|[]]. discriminate H.
    + intros [].
  - apply Forall_cons; [|apply Forall_cons; [|apply Forall_nil]];
      split; apply wellformed_check; reflexivity.
Defined.



(* ================================================================== *)
(** * Further properties of the script *)

(** ** Dictionary assignment *)

Lemma dict_get_set_other (d : dict) (k k' v : pystr) :
  k' <> k -> dict_get (dict_set d k v) k' = dict_get d k'.
Proof.
  intros Hne. induction d as [|[k0 v0] d IH]; cbn [dict_set dict_get].
  - now rewrite pystr_eqb_neq by congruence.
  - destruct (pystr_eqb k0 k) eqn:Hk; cbn [dict_get].
    + apply pystr_eqb_eq in Hk. subst k0.
      now rewrite pystr_eqb_neq by congruence.
    + destruct (pystr_eqb k0 k'); [reflexivity | exact IH].
Qed.

Lemma dict_set_keys_present (d : dict) (k v : pystr) :
  In k (keys d) -> keys (dict_set d k v) = keys d.
Proof.
  induction d as [|[k0 v0] d IH]; cbn [keys List.map dict_set fst];
    [intros []|].
  intros Hin. destruct (pystr_eqb k0 k) eqn:Hk; [reflexivity|].
  cbn [List.map fst]. f_equal. apply IH.
  destruct Hin as [->|Hin]; [|exact Hin].
  now rewrite pystr_eqb_refl in Hk.
Qed.

(** X1.  The assignment [d[k] = v] binds [k] to [v] and leaves every other
    key's value alone; a key already present keeps its place in the
    iteration order, a new key goes to the end. *)
Theorem dict_assignment_binds_one_key (d : dict) (k v : pystr) :
  dict_get (dict_set d k v) k = Some v /\
  (forall k', k' <> k -> dict_get (dict_set d k v) k' = dict_get d k') /\
  (In k (keys d) -> keys (dict_set d k v) = keys d) /\
  (~ In k (keys d) -> keys (dict_set d k v) = keys d ++ [k]).
Proof.
  split; [apply dict_get_set_same|].
  split; [intros k'; apply dict_get_set_other|].
  split; [apply dict_set_keys_present|].
  intros Hk. rewrite dict_set_fresh by exact Hk.
  unfold keys. now rewrite map_app.
Qed.

Lemma dict_assignment_binds_one_key_witness :
  let d := [(py "a", py "1"); (py "b", py "2")] in
  dict_get (dict_set d (py "a") (py "3")) (py "b") = Some (py "2") /\
  keys (dict_set d (py "a") (py "3")) = [py "a"; py "b"] /\
  keys (dict_set d (py "c") (py "3")) = [py "a"; py "b"] ++ [py "c"].
Proof.
  cbv zeta.
  destruct (dict_assignment_binds_one_key
              [(py "a", py "1"); (py "b", py "2")] (py "a") (py "3"))
    as [_ [Hother [Hin _]]].
  destruct (dict_assignment_binds_one_key
              [(py "a", py "1"); (py "b", py "2")] (py "c") (py "3"))
    as [_ [_ [_ Hnew]]].
  split; [apply (Hother (py "b")); discriminate|].
  split; [apply Hin; left; reflexivity|].
  apply Hnew. intros [H|[H|[]]]; discriminate H.
Defined.

(** ** What a read can return *)

Lemma universal_newlines_drops_CR (s : pystr) :
  ~ In CR (universal_newlines s).
Proof.
  assert (H : forall k s, (List.length s <= k)%nat ->
                ~ In CR (universal_newlines s)).
  { induction k as [|k IH]; intros [|c r] Hlen; cbn [universal_newlines];
      try (intros []); simpl in Hlen; try lia.
    destruct (c =? CR) eqn:Hc.
    - destruct r as [|d r']; [intros [H|[]]; discriminate H|].
      simpl in Hlen.
      destruct (d =? LF); intros [H|H]; try discriminate H;
        revert H; apply IH; simpl; lia.
    - apply N.eqb_neq in Hc. intros [H|H]; [congruence|].
      revert H. apply IH. lia. }
  apply (H (List.length s)). lia.
Qed.

Lemma open_read_no_CR E path text :
  open_read E path = inr text -> ~ In CR text.
Proof.
  unfold open_read. destruct (fs_read E path) as [e|bs]; [discriminate|].
  destruct (decode_bytes bs) as [s|]; [|discriminate].
  intros [= <-]. apply universal_newlines_drops_CR.
Qed.

Lemma registry_fallbacks_no_CR :
  Forall (fun kv => ~ In CR (fallback (snd kv))) pages_map.
Proof.
  apply Forall_forall. intros kv Hin.
  assert (H : forallb (fun kv => forallb (fun c => negb (c =? CR))
                                         (fallback (snd kv)))
                      pages_map = true) by (vm_compute; reflexivity).
  rewrite forallb_forall in H. specialize (H kv Hin).
  rewrite forallb_forall in H. intros Hcr. specialize (H CR Hcr).
  discriminate H.
Qed.

(** X2.  Whatever bytes the files hold, every value of the map the loop
    builds is a sequence of Unicode scalar values (no surrogate, nothing
    above U+10FFFF) and contains no carriage return. *)
Theorem built_values_are_clean_text E :
  reads_fail_with_Exception E ->
  exists d w,
    build E world0 = (inr d, w) /\
    Forall (fun kv => wellformed (snd kv) /\ ~ In CR (snd kv)) d.
Proof.
  intros HE. rewrite (build_spec E HE). do 2 eexists.
  split; [reflexivity|].
  apply Forall_forall. intros kv Hin. apply in_map_iff in Hin.
  destruct Hin as [[key filename] [<- Hin]].
  pose proof registry_strings_wellformed as Hwf.
  pose proof registry_fallbacks_no_CR as Hcr.
  rewrite Forall_forall in Hwf, Hcr.
  destruct (Hwf _ Hin) as [_ Hf]. specialize (Hcr _ Hin).
  unfold entry_of. cbn [fst snd] in *.
  destruct (open_read E (path_of filename)) as [e|text] eqn:Hr.
  - split; assumption.
  - split; [exact (open_read_wellformed _ _ _ Hr)
           | exact (open_read_no_CR _ _ _ Hr)].
Qed.

Lemma built_values_are_clean_text_witness :
  exists d w,
    build (env_readme crlf_file) world0 = (inr d, w) /\
    Forall (fun kv => wellformed (snd kv) /\ ~ In CR (snd kv)) d.
Proof.
  apply (built_values_are_clean_text (env_readme crlf_file)).
  intros key filename e _. unfold open_read. simpl.
  destruct (pystr_eqb _ _).
  - destruct (decode_bytes crlf_file); [discriminate|].
    now intros [= <-].
  - now intros [= <-].
Defined.

Lemma utf8_decode_ascii (bs : list N) :
  Forall (fun b => b < 0x80) bs -> utf8_decode bs = Some bs.
Proof.
  induction 1 as [|b bs Hb _ IH]; [reflexivity|].
  cbn [utf8_decode].
  replace (b <? 0x80) with true by (symmetry; now apply N.ltb_lt).
  now rewrite IH.
Qed.

(** X3.  A file of ASCII bytes with no carriage return among them is read
    as it is: the text has one character per byte, with the byte's
    value. *)
Theorem ascii_file_is_read_verbatim E path (bs : list byte) :
  fs_read E path = inr bs ->
  Forall (fun b => Byte.to_N b < 0x80 /\ Byte.to_N b <> CR) bs ->
  open_read E path = inr (List.map Byte.to_N bs).
Proof.
  intros Hfs Hbs. unfold open_read, decode_bytes. rewrite Hfs.
  rewrite utf8_decode_ascii.
  - rewrite universal_newlines_no_CR; [reflexivity|].
    intros Hin. apply in_map_iff in Hin. destruct Hin as [b [Hb Hin]].
    rewrite Forall_forall in Hbs. destruct (Hbs b Hin) as [_ Hne].
    now apply Hne.
  - apply Forall_forall. intros n Hin. apply in_map_iff in Hin.
    destruct Hin as [b [<- Hin]].
    rewrite Forall_forall in Hbs. now destruct (Hbs b Hin).
Qed.

Lemma ascii_file_is_read_verbatim_witness :
  open_read (env_readme ascii_file) (py "docs/guide/README.md")
  = inr (List.map Byte.to_N ascii_file).
Proof.
  apply (ascii_file_is_read_verbatim (env_readme ascii_file)).
  - reflexivity.
  - repeat (apply Forall_cons; [split; [reflexivity | discriminate]|]).
    apply Forall_nil.
Defined.

Lemma option_map_None {A B} (f : A -> B) (o : option A) :
  o = None -> option_map f o = None.
Proof. now intros ->. Qed.

Lemma utf8_decode_rejects (b : N) :
  never_in_utf8 b ->
  forall k bs, (List.length bs <= k)%nat -> In b bs -> utf8_decode bs = None.
Proof.
  intros Hb.
  assert (Hnc : is_cont b = false).
  { unfold is_cont. apply andb_false_iff. right. apply N.ltb_ge.
    unfold never_in_utf8 in Hb. lia. }
  induction k as [|k IH]; intros [|ch r0] Hlen Hin;
    try (destruct Hin; fail); simpl in Hlen; try lia.
  destruct Hin as [->|Hin].
  { destruct Hb as [->|[->|Hb]]; [reflexivity | reflexivity |].
    cbn [utf8_decode].
    replace (b <? 0x80) with false by (symmetry; apply N.ltb_ge; lia).
    replace (b <? 0xC2) with false by (symmetry; apply N.ltb_ge; lia).
    replace (b <? 0xE0) with false by (symmetry; apply N.ltb_ge; lia).
    replace (b <? 0xF0) with false by (symmetry; apply N.ltb_ge; lia).
    replace (b <? 0xF5) with false by (symmetry; apply N.ltb_ge; lia).
    reflexivity. }
  cbn [utf8_decode].
  destruct (ch <? 0x80);
    [apply option_map_None, (IH r0); [lia | exact Hin]|].
  destruct (ch <? 0xC2); [reflexivity|].
  destruct (ch <? 0xE0).
  { destruct r0 as [|ch2 r1]; [reflexivity|]. simpl in Hlen.
    destruct Hin as [->|Hin]; [now rewrite Hnc|].
    destruct (is_cont ch2); [|reflexivity].
    apply option_map_None, (IH r1); [lia | exact Hin]. }
  destruct (ch <? 0xF0).
  { destruct r0 as [|ch2 [|ch3 r2]]; try reflexivity. simpl in Hlen.
    destruct Hin as [->|[->|Hin]].
    - now rewrite Hnc.
    - rewrite Hnc. now rewrite andb_false_r.
    - match goal with |- (if ?c then _ else _) = _ => destruct c end;
        [|reflexivity].
      apply option_map_None, (IH r2); [lia | exact Hin]. }
  destruct (ch <? 0xF5); [|reflexivity].
  destruct r0 as [|ch2 [|ch3 [|ch4 r3]]]; try reflexivity. simpl in Hlen.
  destruct Hin as [->|[->|[->|Hin]]].
  - now rewrite Hnc.
  - rewrite Hnc. now rewrite andb_false_r.
  - rewrite Hnc. now rewrite !andb_false_r.
  - match goal with |- (if ?c then _ else _) = _ => destruct c end;
      [|reflexivity].
    apply option_map_None, (IH r3); [lia | exact Hin].
Qed.

(** X4.  A file that holds, anywhere, a byte no UTF-8 sequence can contain
    (0xC0, 0xC1, or 0xF5 and above) is never loaded in part: its read
    raises [UnicodeDecodeError], its entry is the fallback text, and its
    diagnostic line is printed. *)
Theorem undecodable_file_gives_fallback E key filename bs (b : byte) :
  reads_fail_with_Exception E ->
  In (key, filename) pages_map ->
  fs_read E (path_of filename) = inr bs ->
  In b bs ->
  never_in_utf8 (Byte.to_N b) ->
  open_read E (path_of filename)
  = inl (mkExn UnicodeDecodeError (codec_fault E bs)) /\
  exists d w before after,
    build E world0 = (inr d, w) /\
    dict_get d key = Some (fallback filename) /\
    stdout w
    = before
      ++ (py "Error reading " ++ path_of filename ++ py ": "
          ++ codec_fault E bs ++ [LF])
      ++ after.
Proof.
  intros HE Hin Hfs Hb Hnever.
  assert (Hr : open_read E (path_of filename)
               = inl (mkExn UnicodeDecodeError (codec_fault E bs))).
  { unfold open_read, decode_bytes. rewrite Hfs.
    rewrite (utf8_decode_rejects _ Hnever _ _ (le_n _)); [reflexivity|].
    now apply in_map. }
  split; [exact Hr|].
  rewrite (build_spec E HE).
  destruct (in_split _ _ Hin) as [l1 [l2 Hsplit]].
  exists (List.map (entry_of E) pages_map),
         (mkWorld (flat_map (diagnostic E) pages_map) []),
         (flat_map (diagnostic E) l1), (flat_map (diagnostic E) l2).
  split; [reflexivity|]. split.
  - rewrite (entry_of_In E key filename Hin).
    now rewrite (entry_of_failed _ _ _ _ Hr).
  - cbn [stdout]. rewrite Hsplit at 1. rewrite flat_map_app.
    cbn [flat_map]. unfold diagnostic at 2. cbn [snd]. rewrite Hr.
    cbn [exn_str]. now rewrite <- !app_assoc.
Qed.

Lemma undecodable_file_gives_fallback_witness :
  open_read (env_readme broken_file) (path_of (py "README.md"))
  = inl (mkExn UnicodeDecodeError
               (codec_fault (env_readme broken_file) broken_file)) /\
  exists d w before after,
    build (env_readme broken_file) world0 = (inr d, w) /\
    dict_get d (py "home") = Some (fallback (py "README.md")) /\
    stdout w
    = before
      ++ (py "Error reading " ++ path_of (py "README.md") ++ py ": "
          ++ codec_fault (env_readme broken_file) broken_file ++ [LF])
      ++ after.
Proof.
  apply (undecodable_file_gives_fallback (env_readme broken_file)
           (py "home") (py "README.md") broken_file xff).
  - intros key filename e _. unfold open_read. simpl.
    destruct (pystr_eqb _ _).
    + destruct (decode_bytes broken_file); [discriminate|].
      now intros [= <-].
    + now intros [= <-].
  - left; reflexivity.
  - reflexivity.
  - simpl. tauto.
  - right; right. vm_compute. discriminate.
Defined.

(** ** The loop as a whole *)

(** X5.  Entries are independent: the value bound to an identifier
    depends on the read of its own file only.  Two environments that
    agree on that one file give that identifier the same value, however
    much the other files differ. *)
Theorem entry_depends_on_its_file_only E1 E2 key filename :
  reads_fail_with_Exception E1 ->
  reads_fail_with_Exception E2 ->
  In (key, filename) pages_map ->
  open_read E1 (path_of filename) = open_read E2 (path_of filename) ->
  exists d1 w1 d2 w2,
    build E1 world0 = (inr d1, w1) /\
    build E2 world0 = (inr d2, w2) /\
    dict_get d1 key = dict_get d2 key.
Proof.
  intros H1 H2 Hin Hsame.
  rewrite (build_spec E1 H1), (build_spec E2 H2).
  do 4 eexists. split; [reflexivity|]. split; [reflexivity|].
  rewrite (entry_of_In E1 key filename Hin).
  rewrite (entry_of_In E2 key filename Hin).
  unfold entry_of. cbn [fst snd]. now rewrite Hsame.
Qed.

Lemma entry_depends_on_its_file_only_witness :
  exists d1 w1 d2 w2,
    build env_empty world0 = (inr d1, w1) /\
    build (env_readme ascii_file) world0 = (inr d2, w2) /\
    dict_get d1 (py "mocking") = dict_get d2 (py "mocking").
Proof.
  apply (entry_depends_on_its_file_only env_empty (env_readme ascii_file)
           (py "mocking") (py "mocking.md")).
  - intros key filename e _. unfold open_read. simpl. now intros [= <-].
  - intros key filename e _. unfold open_read. simpl.
    destruct (pystr_eqb _ _).
    + destruct (decode_bytes ascii_file); [discriminate|].
      now intros [= <-].
    + now intros [= <-].
  - simpl. do 12 right. left. reflexivity.
  - reflexivity.
Defined.

Lemma for_each_app {X S} (xs ys : list X) (body : X -> S -> M S)
  (acc : S) (w : world) :
  for_each (xs ++ ys) body acc w
  = match for_each xs body acc w with
    | (inl e, w') => (inl e, w')
    | (inr acc', w') => for_each ys body acc' w'
    end.
Proof.
  revert acc w. induction xs as [|x xs IH]; intros acc w; [reflexivity|].
  cbn [app]. rewrite !for_each_cons.
  destruct (body x acc w) as [[e|acc'] w']; [reflexivity | apply IH].
Qed.

(** X6.  An exception that is not an [Exception], raised by the read of
    some entry after reads that only failed or succeeded, ends the script
    there, uncaught: standard output holds the diagnostic lines of the
    earlier entries and nothing else.  No part of the assignment is
    printed. *)
Theorem interruption_prints_no_assignment E before key filename after e :
  pages_map = before ++ (key, filename) :: after ->
  (forall k f e',
      In (k, f) before ->
      open_read E (path_of f) = inl e' ->
      issubclass_Exception (exn_cls e') = true) ->
  open_read E (path_of filename) = inl e ->
  issubclass_Exception (exn_cls e) = false ->
  fst (run E) = Uncaught e /\
  stdout (snd (run E)) = flat_map (diagnostic E) before.
Proof.
  intros Hsplit Hbefore Hr Hcls.
  unfold run, main, bind, build. rewrite Hsplit, for_each_app.
  rewrite (for_each_loop E before Hbefore). rewrite for_each_cons.
  rewrite (loop_body_escapes _ _ _ e _ _ Hr Hcls).
  split; reflexivity.
Qed.

Lemma interruption_prints_no_assignment_witness :
  fst (run env_interrupted_second) = Uncaught (mkExn KeyboardInterrupt [])
  /\
  stdout (snd (run env_interrupted_second))
  = flat_map (diagnostic env_interrupted_second)
             [(py "home", py "README.md")].
Proof.
  apply (interruption_prints_no_assignment env_interrupted_second
           [(py "home", py "README.md")]
           (py "installation") (py "installation.md")
           (skipn 2 pages_map) (mkExn KeyboardInterrupt [])).
  - reflexivity.
  - intros k f e' [Heq|[]]. injection Heq as <- <-.
    unfold open_read. simpl. now intros [= <-].
  - reflexivity.
  - reflexivity.
Defined.

Lemma flat_map_nil_inv {A B} (f : A -> list B) (l : list A) :
  flat_map f l = [] -> forall x, In x l -> f x = [].
Proof.
  induction l as [|a l IH]; cbn [flat_map]; intros H x [].
  - subst. now apply app_eq_nil in H.
  - apply IH; [now apply app_eq_nil in H | assumption].
Qed.

Lemma flat_map_nil {A B} (f : A -> list B) (l : list A) :
  (forall x, In x l -> f x = []) -> flat_map f l = [].
Proof.
  induction l as [|a l IH]; intros H; [reflexivity|].
  cbn [flat_map]. rewrite (H a) by now left.
  apply IH. intros x Hx. apply H. now right.
Qed.

(** X7.  Standard output is the assignment alone exactly when no read
    failed: with every file read, nothing precedes the assignment; and if
    nothing precedes it, every file was read. *)
Theorem output_is_clean_iff_no_read_failed E :
  reads_fail_with_Exception E ->
  (stdout (snd (run E))
   = js_content (List.map (entry_of E) pages_map) ++ [LF])
  <->
  (forall key filename,
      In (key, filename) pages_map ->
      exists text, open_read E (path_of filename) = inr text).
Proof.
  intros HE. rewrite (run_spec E HE). cbn [snd stdout]. split.
  - intros Hout key filename Hin.
    assert (Hnil : flat_map (diagnostic E) pages_map = []).
    { apply (f_equal (@List.length N)) in Hout.
      rewrite length_app in Hout.
      destruct (flat_map (diagnostic E) pages_map); [reflexivity|].
      simpl in Hout. lia. }
    pose proof (flat_map_nil_inv _ _ Hnil _ Hin) as Hd.
    unfold diagnostic in Hd. cbn [snd] in Hd.
    destruct (open_read E (path_of filename)) as [e|text];
      [discriminate Hd | now exists text].
  - intros Hall.
    assert (Hnil : flat_map (diagnostic E) pages_map = []).
    { apply flat_map_nil. intros [key filename] Hin.
      destruct (Hall key filename Hin) as [text Hr].
      exact (diagnostic_read _ _ _ _ Hr). }
    now rewrite Hnil.
Qed.

Lemma output_is_clean_iff_no_read_failed_witness :
  stdout (snd (run env_blank))
  = js_content (List.map (entry_of env_blank) pages_map) ++ [LF]
  <->
  (forall key filename,
      In (key, filename) pages_map ->
      exists text, open_read env_blank (path_of filename) = inr text).
Proof.
  apply (output_is_clean_iff_no_read_failed env_blank).
  intros key filename e _. unfold open_read. simpl. discriminate.
Defined.

(** ** The encoder *)

(** X8.  A string of printable ASCII characters with no double quote and
    no backslash is written between two double quotes exactly as it is;
    the registry's identifiers are such strings. *)
Theorem plain_string_is_only_quoted (s : pystr) :
  Forall (fun c => printable c /\ c <> QUOTE /\ c <> BACKSLASH) s ->
  encode_basestring_ascii s = [QUOTE] ++ s ++ [QUOTE].
Proof.
  intros Hs. unfold encode_basestring_ascii. do 2 f_equal.
  induction Hs as [|c s [[Hlo Hhi] [Hq Hb]] _ IH]; [reflexivity|].
  cbn [flat_map]. rewrite IH. unfold escape_char, ESCAPE_ASCII.
  replace (c =? BACKSLASH) with false by (symmetry; now apply N.eqb_neq).
  replace (c =? QUOTE) with false by (symmetry; now apply N.eqb_neq).
  replace (SPACE <=? c) with true by (symmetry; now apply N.leb_le).
  replace (c <=? 126) with true by (symmetry; now apply N.leb_le).
  reflexivity.
Qed.

Lemma plain_string_is_only_quoted_witness :
  encode_basestring_ascii (py "rest-api-testing")
  = [QUOTE] ++ py "rest-api-testing" ++ [QUOTE].
Proof.
  apply (plain_string_is_only_quoted (py "rest-api-testing")).
  repeat (apply Forall_cons;
          [split; [split; discriminate | split; discriminate]|]).
  apply Forall_nil.
Defined.












Lemma surrogate_below_0x10000 (base x : N) :
  base = 54 \/ base = 55 ->
  N.lor (N.shiftl base 10) (N.land x 0x3ff) < 0x10000.
Proof.
  intros Hb. change 0x3ff with (N.ones 10). rewrite N.land_ones.
  change (2 ^ 10) with 1024.
  rewrite lor_shiftl_low by (change (2 ^ 10) with 1024; divmod).
  rewrite N.shiftl_mul_pow2. change (2 ^ 10) with 1024.
  destruct Hb; subst; divmod.
Qed.

Lemma format_04x_length (n : N) :
  n < 0x10000 -> List.length (format_04x n) = 4%nat.
Proof. intros Hn. now rewrite format_04x_hex4. Qed.

Lemma escape_char_length (c : N) :
  (1 <= List.length (escape_char c) <= 12)%nat.
Proof.
  unfold escape_char. destruct (ESCAPE_ASCII c); [|simpl; lia].
  unfold replace, ESCAPE_DCT.
  destruct (c =? BACKSLASH); [simpl; lia|].
  destruct (c =? QUOTE); [simpl; lia|].
  destruct (c =? 8); [simpl; lia|].
  destruct (c =? 12); [simpl; lia|].
  destruct (c =? LF); [simpl; lia|].
  destruct (c =? CR); [simpl; lia|].
  destruct (c =? 9); [simpl; lia|].
  destruct (c <? 0x20) eqn:T1.
  { apply N.ltb_lt in T1.
    rewrite length_app, format_04x_length by lia. simpl. lia. }
  destruct (c <? 0x10000) eqn:T2.
  { apply N.ltb_lt in T2.
    rewrite length_app, format_04x_length by lia. simpl. lia. }
  cbv zeta. rewrite !length_app.
  change 0xd800 with (N.shiftl 54 10). change 0xdc00 with (N.shiftl 55 10).
  rewrite !format_04x_length by (apply surrogate_below_0x10000; auto).
  simpl. lia.
Qed.

(** X10.  Escaping grows a string by a bounded factor: a character
    becomes at least one and at most twelve characters, so an encoded
    string is never shorter than the text plus its two quotes and never
    longer than twelve times the text plus two. *)
Theorem encoded_length_is_bounded (s : pystr) :
  (List.length s + 2 <= List.length (encode_basestring_ascii s)
   <= 12 * List.length s + 2)%nat.
Proof.
  unfold encode_basestring_ascii. rewrite !length_app. cbn [List.length].
  assert (H : (List.length s <= List.length (flat_map escape_char s)
               <= 12 * List.length s)%nat).
  { induction s as [|c s IH]; cbn [flat_map List.length]; [lia|].
    rewrite length_app. pose proof (escape_char_length c). lia. }
  lia.
Qed.
